(** * Rank resolution over a lazily growing result feed (src/app.py)

    A shallow embedding of [search_single_business] and
    [search_multiple_businesses].  The browser, the rendered pages and the
    progress widget are the environment: their answers are read from an
    [Env], every call on them is recorded as an [event], and a Python
    exception is a value of [exn] threaded through a state-and-error monad. *)

From Stdlib Require Import String Ascii List ZArith NArith QArith Lia Bool Sorted.
Import ListNotations.

Local Open Scope Z_scope.

(** Closes goals about division and remainder by constants. *)
Ltac divmod := zify; Z.to_euclidean_division_equations; lia.

(** ** Python strings *)

(** A [str] is a sequence of Unicode code points. *)
Definition pystr := list N.

Definition of_string (s : string) : pystr :=
  map N_of_ascii (list_ascii_of_string s).

Fixpoint pystr_eqb (a b : pystr) : bool :=
  match a, b with
  | [], [] => true
  | x :: a', y :: b' => N.eqb x y && pystr_eqb a' b'
  | _, _ => false
  end.

(** [str.isspace] on one code point: the characters [str.strip()] removes. *)
Definition isspace (c : N) : bool :=
  ((9 <=? c) && (c <=? 13) || (28 <=? c) && (c <=? 32)
   || (c =? 133) || (c =? 160) || (c =? 5760)
   || (8192 <=? c) && (c <=? 8202)
   || (c =? 8232) || (c =? 8233) || (c =? 8239) || (c =? 8287)
   || (c =? 12288))%N.

Fixpoint lstrip (s : pystr) : pystr :=
  match s with
  | c :: s' => if isspace c then lstrip s' else s
  | [] => []
  end.

Definition rstrip (s : pystr) : pystr := rev (lstrip (rev s)).

(** [s.strip()] *)
Definition strip (s : pystr) : pystr := rstrip (lstrip s).

(** ** Parsed feed entries *)

(** One [li] of [soup.select("div.Ryr1F#_pcmap_list_scroll_container > ul > li")],
    seen through the two [select_one] calls the loop makes on it:
    [ad_element] is whether [.gU6bV._DHlh] is found, [shop_name_element] is
    the [.text] of [.place_bluelink.tWIhh > span.O_Uah] when that is found. *)
Record Tag := mkTag {
  ad_element : bool;
  shop_name_element : option pystr
}.

(** ** Exceptions, events, environment *)

(** Instances of [Exception]: selenium's [TimeoutException], or any other
    class derived from [Exception].  Signals that derive from
    [BaseException] only, such as [KeyboardInterrupt], are not modelled. *)
Inductive exn :=
| TimeoutException (msg : pystr)
| OtherException (type_name msg : pystr).

Inductive st_message :=
| MsgConnecting (url : pystr)        (* st.text(f"URL: {url} ...") *)
| MsgFrameTimeout                    (* st.error, line 94 *)
| MsgLoadFailed                      (* st.error, line 103 *)
| MsgException (e : exn).            (* st.error, line 139 *)

Inductive progress_text :=
| TextSearching (done total : Z)     (* f"... ({i+1}/{total})" *)
| TextDone.

Inductive event :=
| ESetupDriver
| EGet (url : pystr)
| EWaitFrame (timeout : Z)
| EWaitContainer (timeout : Z)
| EPageSource
| EExecuteScript
| ESleep (secs : Z)
| EQuit
| EStText (m : st_message)
| EStError (m : st_message)
| EProgress (value : Q) (text : progress_text).

(** What one navigation answers: whether [driver.get] and the two waits
    raise, the entries parsed from [page_source] after [k] scrolls, and
    whether the [k]-th scroll script raises. *)
Record Page := mkPage {
  get_raises : option exn;
  frame_wait_raises : option exn;
  container_wait_raises : option exn;
  source : nat -> exn + list Tag;
  scroll_raises : nat -> option exn
}.

Record Env := mkEnv {
  web : nat -> pystr -> Page;          (* the n-th navigation, to a url *)
  setup_raises : option exn;           (* setup_driver() *)
  quit_raises : option exn;            (* driver.quit() *)
  progress_raises : nat -> option exn  (* the n-th progress_bar.progress(...) *)
}.

Definition blank_page : Page :=
  mkPage None None None (fun _ => inr []) (fun _ => None).

Record World := mkWorld {
  navs : nat;            (* navigations made so far *)
  page : Page;           (* the page the driver is on *)
  scrolls : nat;         (* scroll scripts run on it *)
  progress_calls : nat;  (* calls of progress_bar.progress so far *)
  driver_cached : bool   (* st.cache_resource holds setup_driver's result *)
}.

Definition initial_world : World := mkWorld 0 blank_page 0 0 false.

(** The session object. *)
Inductive WebDriver := ChromeSession.

Inductive ProgressBar := StProgress.

(** ** The monad: state, exceptions, emitted events *)

Record Run (A : Type) := mkRun {
  res : A + exn;
  final : World;
  emitted : list event
}.
Arguments mkRun {A}.
Arguments res {A}.
Arguments final {A}.
Arguments emitted {A}.

Definition M (A : Type) := World -> Run A.

Definition ret {A} (a : A) : M A := fun w => mkRun (inl a) w [].

Definition raise {A} (e : exn) : M A := fun w => mkRun (inr e) w [].

Definition bind {A B} (m : M A) (f : A -> M B) : M B :=
  fun w =>
    let r := m w in
    match res r with
    | inl a => let r' := f a (final r) in
               mkRun (res r') (final r') (emitted r ++ emitted r')
    | inr e => mkRun (inr e) (final r) (emitted r)
    end.

Notation "x <- m ;; k" := (bind m (fun x => k))
  (at level 61, m at next level, right associativity).
Notation "m ;; k" := (bind m (fun _ => k))
  (at level 61, right associativity).

(** [try: body except <class>: handler], [catches] says which exceptions the
    clause matches. *)
Definition try_except {A} (body : M A) (catches : exn -> bool)
    (handler : exn -> M A) : M A :=
  fun w =>
    let r := body w in
    match res r with
    | inl a => r
    | inr e =>
        if catches e then
          let r' := handler e (final r) in
          mkRun (res r') (final r') (emitted r ++ emitted r')
        else r
    end.

(** [try: body finally: cleanup].  The cleanup always runs; an exception of
    the cleanup replaces the body's outcome, otherwise the body's outcome
    (value or exception) stands. *)
Definition try_finally {A} (body : M A) (cleanup : M unit) : M A :=
  fun w =>
    let r := body w in
    let r' := cleanup (final r) in
    match res r' with
    | inl _ => mkRun (res r) (final r') (emitted r ++ emitted r')
    | inr e => mkRun (inr e) (final r') (emitted r ++ emitted r')
    end.

Definition emit (e : event) : M unit := fun w => mkRun (inl tt) w [e].

Definition raise_if (o : option exn) : M unit :=
  match o with
  | Some e => raise e
  | None => ret tt
  end.

Definition is_TimeoutException (e : exn) : bool :=
  match e with
  | TimeoutException _ => true
  | OtherException _ _ => false
  end.

Definition is_Exception (e : exn) : bool := true.

(** ** Calls on the environment *)

Definition st_text (m : st_message) : M unit := emit (EStText m).
Definition st_error (m : st_message) : M unit := emit (EStError m).
Definition time_sleep (secs : Z) : M unit := emit (ESleep secs).

Section Program.

Variable env : Env.

(** [setup_driver()] under [@st.cache_resource]: the body runs when nothing
    is cached, and what it returns is cached; a cached session is handed
    out again without running the body. *)
Definition setup_driver : M WebDriver :=
  fun w =>
    if driver_cached w then mkRun (inl ChromeSession) w []
    else
      match setup_raises env with
      | Some e => mkRun (inr e) w [ESetupDriver]
      | None =>
          mkRun (inl ChromeSession)
                (mkWorld (navs w) (page w) (scrolls w) (progress_calls w) true)
                [ESetupDriver]
      end.

(** [driver.get(url)] *)
Definition driver_get (driver : WebDriver) (url : pystr) : M unit :=
  fun w =>
    let p := web env (navs w) url in
    mkRun (match get_raises p with Some e => inr e | None => inl tt end)
          (mkWorld (S (navs w)) p 0 (progress_calls w) (driver_cached w))
          [EGet url].

(** [WebDriverWait(driver, timeout).until(EC.frame_to_be_available_and_switch_to_it(...))] *)
Definition wait_frame (driver : WebDriver) (timeout : Z) : M unit :=
  emit (EWaitFrame timeout) ;;
  fun w => raise_if (frame_wait_raises (page w)) w.

(** [WebDriverWait(driver, timeout).until(EC.presence_of_element_located(...))] *)
Definition wait_container (driver : WebDriver) (timeout : Z) : M unit :=
  emit (EWaitContainer timeout) ;;
  fun w => raise_if (container_wait_raises (page w)) w.

(** [BeautifulSoup(driver.page_source, "html.parser").select(...)] *)
Definition shop_list (driver : WebDriver) : M (list Tag) :=
  emit EPageSource ;;
  fun w =>
    match source (page w) (scrolls w) with
    | inl e => raise e w
    | inr l => ret l w
    end.

(** [driver.execute_script("...scrollTo(0, ...scrollHeight)")] *)
Definition driver_execute_script (driver : WebDriver) : M unit :=
  fun w =>
    match scroll_raises (page w) (scrolls w) with
    | Some e => mkRun (inr e) w [EExecuteScript]
    | None =>
        mkRun (inl tt)
              (mkWorld (navs w) (page w) (S (scrolls w)) (progress_calls w)
                       (driver_cached w))
              [EExecuteScript]
    end.

(** [driver.quit()] *)
Definition driver_quit (driver : WebDriver) : M unit :=
  emit EQuit ;;
  raise_if (quit_raises env).

(** [progress_bar.progress(value, text=text)] *)
Definition progress (bar : ProgressBar) (value : Q) (text : progress_text)
    : M unit :=
  fun w =>
    let w' := mkWorld (navs w) (page w) (scrolls w) (S (progress_calls w))
                      (driver_cached w) in
    match progress_raises env (progress_calls w) with
    | Some e => mkRun (inr e) w' []
    | None => mkRun (inl tt) w' [EProgress value text]
    end.

(** ** [build_url] *)

Definition BASE_URL : pystr := of_string "https://map.naver.com/p/search/".

Definition build_url (keyword : pystr) : pystr := BASE_URL ++ keyword.

(** ** [search_single_business] *)

(** The [for shop_element in shop_list_element] loop, lines 118-130.
    [inl r] is [return r]; [inr rank] is the loop running to its end, with
    the value [rank] then has. *)
Fixpoint for_shop_elements (shop_list_element : list Tag) (shop_name : pystr)
    (rank : Z) : Z + Z :=
  match shop_list_element with
  | [] => inr rank
  | shop_element :: rest =>
      let rank := rank + 1 in
      if ad_element shop_element then
        for_shop_elements rest shop_name rank          (* continue *)
      else
        match shop_name_element shop_element with
        | Some text =>
            let current_shop_name := strip text in
            if pystr_eqb current_shop_name shop_name then inl rank
            else for_shop_elements rest shop_name rank
        | None => for_shop_elements rest shop_name rank
        end
  end.

(** The [while not found and scroll_count < max_scrolls] loop, lines 111-134.
    [found] is never assigned, so the guard is the comparison alone.  Each
    pass increments [scroll_count], so [fuel] passes suffice when
    [max_scrolls - scroll_count <= fuel] ([while_loop_fuel]); the caller
    supplies [Z.to_nat max_scrolls]. *)
Fixpoint while_loop (fuel : nat) (driver : WebDriver) (shop_name : pystr)
    (max_scrolls scroll_count rank : Z) : M Z :=
  match fuel with
  | O => ret (-1)
  | S fuel' =>
      if scroll_count <? max_scrolls then
        let scroll_count := scroll_count + 1 in
        shop_list_element <- shop_list driver ;;
        match for_shop_elements shop_list_element shop_name rank with
        | inl rank => ret rank
        | inr rank =>
            driver_execute_script driver ;;
            time_sleep 1 ;;
            while_loop fuel' driver shop_name max_scrolls scroll_count rank
        end
      else ret (-1)
  end.

(** The body of the outer [try], lines 84-136.  A handler that ends in
    [return -1] yields [Some (-1)]; [None] is falling through to the next
    statement. *)
Definition search_body (driver : WebDriver) (keyword shop_name : pystr)
    (max_scrolls : Z) : M Z :=
  let url := build_url keyword in
  driver_get driver url ;;
  st_text (MsgConnecting url) ;;
  returned <- try_except (wait_frame driver 10 ;; ret None)
                is_TimeoutException
                (fun _ => st_error MsgFrameTimeout ;; ret (Some (-1))) ;;
  match returned with Some r => ret r | None =>
  returned <- try_except (wait_container driver 10 ;; ret None)
                is_TimeoutException
                (fun _ => st_error MsgLoadFailed ;; ret (Some (-1))) ;;
  match returned with Some r => ret r | None =>
  let rank := 0 in
  let scroll_count := 0 in
  while_loop (Z.to_nat max_scrolls) driver shop_name max_scrolls
             scroll_count rank
  end end.

Definition search_single_business (driver : WebDriver)
    (keyword shop_name : pystr) (max_scrolls : Z) : M Z :=
  try_except (search_body driver keyword shop_name max_scrolls)
    is_Exception
    (fun e => st_error (MsgException e) ;; ret (-1)).

(** ** [search_multiple_businesses] *)

(** The "rank" column holds the rank, or the text used when there is none. *)
Inductive rank_cell :=
| RankInt (rank : Z)
| RankNotFound.

Record Row := mkRow {
  row_keyword : pystr;
  row_shop_name : pystr;
  row_rank : rank_cell;
  row_found : bool
}.

(** [a / b] on two ints, as an exact fraction. *)
Definition truediv (a b : Z) : M Q :=
  if b =? 0 then raise (OtherException (of_string "ZeroDivisionError")
                                       (of_string "division by zero"))
  else ret (if 0 <? b then a # Z.to_pos b else (- a) # Z.to_pos (- b)).

(** The default of the parameter [max_scrolls], line 70. *)
Definition default_max_scrolls : Z := 50.

(** The [for i, (keyword, shop_name) in enumerate(zip(keywords, shop_names))]
    loop, lines 160-174; [i] is the index of the head of [pairs]. *)
Fixpoint for_pairs (driver : WebDriver) (progress_bar : option ProgressBar)
    (total i : Z) (pairs : list (pystr * pystr)) (results : list Row)
    : M (list Row) :=
  match pairs with
  | [] => ret results
  | (keyword, shop_name) :: rest =>
      match progress_bar with
      | Some bar =>
          value <- truediv i total ;;
          progress bar value (TextSearching (i + 1) total)
      | None => ret tt
      end ;;
      rank <- search_single_business driver keyword shop_name
                default_max_scrolls ;;
      let result :=
        mkRow keyword shop_name
              (if 0 <? rank then RankInt rank else RankNotFound)
              (0 <? rank) in
      let results := results ++ [result] in
      time_sleep 1 ;;
      for_pairs driver progress_bar total (i + 1) rest results
  end.

Definition search_multiple_businesses (keywords shop_names : list pystr)
    (progress_bar : option ProgressBar) : M (list Row) :=
  let results := [] in
  driver <- setup_driver ;;
  results <-
    try_finally
      (let total := Z.of_nat (length keywords) in
       for_pairs driver progress_bar total 0 (combine keywords shop_names)
                 results)
      (driver_quit driver ;;
       match progress_bar with
       | Some bar => progress bar 1 TextDone
       | None => ret tt
       end) ;;
  ret results.

End Program.

(** ** Specification vocabulary *)

(** The entry is organic and the trimmed text of its name element is the
    target name: the test of lines 122-129. *)
Definition matches (shop_name : pystr) (e : Tag) : bool :=
  negb (ad_element e) &&
  match shop_name_element e with
  | Some text => pystr_eqb (strip text) shop_name
  | None => false
  end.

(** Index (from 0) of the first matching entry. *)
Fixpoint find_match (shop_name : pystr) (es : list Tag) : option nat :=
  match es with
  | [] => None
  | e :: es' =>
      if matches shop_name e then Some O
      else option_map S (find_match shop_name es')
  end.

(** Number of entries parsed after [i] scrolls (none when parsing raises). *)
Definition snapshot_len (p : Page) (i : nat) : Z :=
  match source p i with
  | inr es => Z.of_nat (length es)
  | inl _ => 0
  end.

(** Entries walked by the [k] cycles that start after [s] scrolls. *)
Fixpoint offset (p : Page) (s k : nat) : Z :=
  match k with
  | O => 0
  | S k' => snapshot_len p s + offset p (S s) k'
  end.

(** The [k] cycles that start after [s] scrolls parse, find nothing and
    scroll without an exception. *)
Definition quiet (p : Page) (shop_name : pystr) (s k : nat) : Prop :=
  forall i, (i < k)%nat ->
    exists es, source p (s + i) = inr es /\
               find_match shop_name es = None /\
               scroll_raises p (s + i) = None.

(** The page loads: neither [driver.get] nor a wait raises. *)
Definition loads (q : Page) : Prop :=
  get_raises q = None /\ frame_wait_raises q = None /\
  container_wait_raises q = None.

(** The page a navigation for [keyword] lands on, from world [w]. *)
Definition landing (env : Env) (w : World) (keyword : pystr) : Page :=
  web env (navs w) (build_url keyword).

Definition landed (env : Env) (w : World) (keyword : pystr) : World :=
  mkWorld (S (navs w)) (landing env w keyword) 0 (progress_calls w)
          (driver_cached w).

Definition scrolled (w : World) : World :=
  mkWorld (navs w) (page w) (S (scrolls w)) (progress_calls w)
          (driver_cached w).

Definition cycle_events : list event := [EPageSource; EExecuteScript; ESleep 1].

(** Events of [k] passes that find nothing. *)
Fixpoint cycles (k : nat) : list event :=
  match k with
  | O => []
  | S k' => cycle_events ++ cycles k'
  end.

(** The value [rank] holds while the loop of lines 118-130 visits the entry
    at index [j], when the loop is entered with [rank] and has not returned
    before: line 119 has run once for each entry up to it. *)
Fixpoint rank_at (shop_list_element : list Tag) (rank : Z) (j : nat)
    : option Z :=
  match shop_list_element with
  | [] => None
  | _ :: rest =>
      let rank := rank + 1 in
      match j with
      | O => Some rank
      | S j' => rank_at rest rank j'
      end
  end.

Definition count_sponsored (es : list Tag) : nat :=
  length (filter ad_element es).

Definition count_organic (es : list Tag) : nat :=
  length (filter (fun e => negb (ad_element e)) es).

Definition arrival_events (keyword : pystr) : list event :=
  [EGet (build_url keyword); EStText (MsgConnecting (build_url keyword));
   EWaitFrame 10; EWaitContainer 10].

Definition is_page_source (e : event) : bool :=
  match e with EPageSource => true | _ => false end.
Definition is_execute_script (e : event) : bool :=
  match e with EExecuteScript => true | _ => false end.
Definition is_quit (e : event) : bool :=
  match e with EQuit => true | _ => false end.
Definition is_progress (e : event) : bool :=
  match e with EProgress _ _ => true | _ => false end.

Definition count (f : event -> bool) (evs : list event) : nat :=
  length (filter f evs).

(** The fractions handed to the progress callback, in order. *)
Fixpoint fractions (evs : list event) : list Q :=
  match evs with
  | [] => []
  | EProgress v _ :: evs' => v :: fractions evs'
  | _ :: evs' => fractions evs'
  end.

(** Events a resolution may emit: anything but session setup, session
    disposal and progress reports. *)
Definition resolution_event (e : event) : bool :=
  match e with
  | ESetupDriver | EQuit | EProgress _ _ => false
  | _ => true
  end.

(** How many of the fractions are 1. *)
Definition ones (l : list Q) : nat :=
  length (filter (fun q => Qeq_bool q 1) l).

(** The row built at lines 166-171 from a returned rank. *)
Definition row_of (keyword shop_name : pystr) (rank : Z) : Row :=
  mkRow keyword shop_name
        (if 0 <? rank then RankInt rank else RankNotFound)
        (0 <? rank).

(** The value of [i / total] for a nonzero [total]. *)
Definition quotient (i total : Z) : Q :=
  if 0 <? total then i # Z.to_pos total else (- i) # Z.to_pos (- total).

(** The progress report that opens a pass of the pair loop, lines 161-162. *)
Definition report (env : Env) (progress_bar : option ProgressBar)
    (i total : Z) : M unit :=
  match progress_bar with
  | Some bar =>
      value <- truediv i total ;;
      progress env bar value (TextSearching (i + 1) total)
  | None => ret tt
  end.

Definition progress_called (w : World) : World :=
  mkWorld (navs w) (page w) (scrolls w) (S (progress_calls w))
          (driver_cached w).

(** The world once [setup_driver] has returned a session. *)
Definition acquired (w : World) : World :=
  if driver_cached w then w
  else mkWorld (navs w) (page w) (scrolls w) (progress_calls w) true.

(** [setup_driver] returns a session: one is cached, or its body succeeds. *)
Definition acquires (env : Env) (w : World) : Prop :=
  driver_cached w = true \/ setup_raises env = None.

(** What [setup_driver] emits: the body runs only when nothing is cached. *)
Definition setup_events (w : World) : list event :=
  if driver_cached w then [] else [ESetupDriver].

Definition is_setup (e : event) : bool :=
  match e with ESetupDriver => true | _ => false end.

(** The fractions [i/total, (i+1)/total, ...] of [m] consecutive passes. *)
Fixpoint pass_fractions (total i : Z) (m : nat) : list Q :=
  match m with
  | O => []
  | S m' => quotient i total :: pass_fractions total (i + 1) m'
  end.

(** The pair of names a row was built for. *)
Definition row_pair (r : Row) : pystr * pystr :=
  (row_keyword r, row_shop_name r).

(** The [finally] block, lines 177-179. *)
Definition cleanup (env : Env) (driver : WebDriver)
    (progress_bar : option ProgressBar) : M unit :=
  driver_quit env driver ;;
  match progress_bar with
  | Some bar => progress env bar 1 TextDone
  | None => ret tt
  end.

(** ** Sample feeds *)

Definition organic (name : string) : Tag := mkTag false (Some (of_string name)).
Definition sponsored (name : string) : Tag := mkTag true (Some (of_string name)).

(** A page that loads and whose feed after [k] scrolls is [feed k]. *)
Definition page_of (feed : nat -> list Tag) : Page :=
  mkPage None None None (fun k => inr (feed k)) (fun _ => None).

(** An environment in which nothing but the pages can fail. *)
Definition env_of (site : nat -> pystr -> Page) : Env :=
  mkEnv site None None (fun _ => None).

Definition static_feed (es : list Tag) : nat -> list Tag := fun _ => es.

(** One entry is visible at first; the second appears after the first scroll. *)
Definition growing_feed (k : nat) : list Tag :=
  match k with
  | O => [organic "A"]
  | S _ => [organic "A"; organic "B"]
  end.

Definition growing_env : Env := env_of (fun _ _ => page_of growing_feed).

Definition two_entries : list Tag := [organic "A"; organic "B"].

Definition two_entry_env : Env :=
  env_of (fun _ _ => page_of (static_feed two_entries)).

(** A sponsored entry carrying the target's name, ahead of the organic one. *)
Definition ad_feed : list Tag := [sponsored "A"; organic "A"; organic "B"].

Definition ad_env : Env := env_of (fun _ _ => page_of (static_feed ad_feed)).

(** A sponsored entry and an organic one are visible at first; a third
    entry appears after the first scroll. *)
Definition ad_growing_feed (k : nat) : list Tag :=
  match k with
  | O => [sponsored "Ad"; organic "A"]
  | S _ => [sponsored "Ad"; organic "A"; organic "B"]
  end.

Definition ad_growing_env : Env := env_of (fun _ _ => page_of ad_growing_feed).

Definition boom : exn :=
  OtherException (of_string "WebDriverException") (of_string "boom").

(** The feed container never shows up. *)
Definition timeout_page : Page :=
  mkPage None None (Some (TimeoutException (of_string "timeout")))
         (fun _ => inr [organic "A"]) (fun _ => None).

(** [driver.get] itself raises. *)
Definition broken_page : Page :=
  mkPage (Some boom) None None (fun _ => inr []) (fun _ => None).

Definition four_entries : list Tag :=
  [organic "A"; sponsored "B"; organic "C"; organic "D"].

(** The first navigation times out, later ones show four entries. *)
Definition flaky_env : Env :=
  env_of (fun n _ => match n with
                     | O => timeout_page
                     | S _ => page_of (static_feed four_entries)
                     end).

(** Every page is broken, every progress report and the disposal raise. *)
Definition hostile_env : Env :=
  mkEnv (fun _ _ => broken_page) None (Some boom) (fun _ => Some boom).

(** The target appears only once 50 scrolls have been made. *)
Definition late_feed (k : nat) : list Tag :=
  if (k <? 50)%nat then [organic "A"] else [organic "A"; organic "B"].

Definition late_env : Env := env_of (fun _ _ => page_of late_feed).

(** The rank a resolution returns once its navigation has landed on [p]. *)
Definition rank_on (p : Page) (shop_name : pystr) (max_scrolls : Z) : Z :=
  match res (search_single_business (env_of (fun _ _ => p)) ChromeSession []
               shop_name max_scrolls initial_world) with
  | inl r => r
  | inr _ => -1
  end.

(** The rows of a batch whose first navigation is the [n]-th one, each
    resolved with [budget] scroll attempts. *)
Fixpoint rows_from (env : Env) (budget : Z) (n : nat)
    (pairs : list (pystr * pystr)) : list Row :=
  match pairs with
  | [] => []
  | (keyword, shop_name) :: rest =>
      row_of keyword shop_name
        (rank_on (web env n (build_url keyword)) shop_name budget)
      :: rows_from env budget (S n) rest
  end.

(** ** The input form, lines 287-335 *)

(** [add_input] and [remove_input], the callbacks of the two buttons, on
    [st.session_state.input_count]. *)
Definition add_input (input_count : Z) : Z := input_count + 1.

Definition remove_input (input_count : Z) : Z :=
  if 1 <? input_count then input_count - 1 else input_count.

Inductive click := ClickAdd | ClickRemove.

(** The counter after a series of clicks, starting from the value it is
    given when absent, line 288. *)
Definition initial_input_count : Z := 1.

Fixpoint after_clicks (clicks : list click) (input_count : Z) : Z :=
  match clicks with
  | [] => input_count
  | ClickAdd :: rest => after_clicks rest (add_input input_count)
  | ClickRemove :: rest => after_clicks rest (remove_input input_count)
  end.

(** Truth value of a [str]: it is not empty. *)
Definition truthy (s : pystr) : bool :=
  match s with [] => false | _ :: _ => true end.

(** [[(k, s) for k, s in zip(keywords, shop_names) if k and s]], line 323. *)
Definition valid_inputs (keywords shop_names : list pystr)
    : list (pystr * pystr) :=
  filter (fun p => truthy (fst p) && truthy (snd p))
         (combine keywords shop_names).

(** What a click on the search button leads to, lines 321-335: the error
    message of line 326, or the batch over the unzipped valid inputs, with
    the progress bar of line 331. *)
Inductive direct_outcome :=
| NoValidInput
| DirectSearched (r : Run (list Row)).

Definition direct_search (env : Env) (keywords shop_names : list pystr)
    (w : World) : direct_outcome :=
  let valid_inputs := valid_inputs keywords shop_names in
  match valid_inputs with
  | [] => NoValidInput
  | _ :: _ =>
      let valid_keywords := map fst valid_inputs in
      let valid_shop_names := map snd valid_inputs in
      DirectSearched
        (search_multiple_businesses env valid_keywords valid_shop_names
           (Some StProgress) w)
  end.

(** ** The CSV page, lines 413-460 *)

Definition pair_eqb (a b : pystr * pystr) : bool :=
  pystr_eqb (fst a) (fst b) && pystr_eqb (snd a) (snd b).

(** [input_df.drop_duplicates(subset=[...])] on the two columns, as a list
    of their rows: the first occurrence of each row is kept, in place. *)
Fixpoint drop_duplicates_from (seen rows : list (pystr * pystr))
    : list (pystr * pystr) :=
  match rows with
  | [] => []
  | row :: rest =>
      if existsb (pair_eqb row) seen then drop_duplicates_from seen rest
      else row :: drop_duplicates_from (row :: seen) rest
  end.

Definition drop_duplicates (rows : list (pystr * pystr))
    : list (pystr * pystr) :=
  drop_duplicates_from [] rows.

(** The search started from the CSV page, lines 413-425; [input_df] is the
    two leading columns of the uploaded table, as text. *)
Definition csv_search (env : Env) (input_df : list (pystr * pystr))
    (w : World) : Run (list Row) :=
  let input_df := drop_duplicates input_df in
  search_multiple_businesses env (map fst input_df) (map snd input_df)
    (Some StProgress) w.

(** [int(cell)] for a cell of the rank column, as [astype(int)] applies it:
    the not-found text is no integer literal. *)
Definition astype_int (c : rank_cell) : Z + exn :=
  match c with
  | RankInt rank => inl rank
  | RankNotFound =>
      inr (OtherException (of_string "ValueError")
                          (of_string "invalid literal for int() with base 10"))
  end.

(** [df[df[found] == True]] followed by [astype(int)] on the rank column:
    the keyword and the rank of each found row, or the first exception. *)
Fixpoint found_ranks (results_df : list Row) : list (pystr * Z) + exn :=
  match results_df with
  | [] => inl []
  | row :: rest =>
      if row_found row then
        match astype_int (row_rank row) with
        | inl rank =>
            match found_ranks rest with
            | inl l => inl ((row_keyword row, rank) :: l)
            | inr e => inr e
            end
        | inr e => inr e
        end
      else found_ranks rest
  end.

(** [a < b] on two [str]: lexicographic, by code point. *)
Fixpoint pystr_ltb (a b : pystr) : bool :=
  match a, b with
  | _, [] => false
  | [], _ :: _ => true
  | x :: a', y :: b' =>
      if (x <? y)%N then true
      else if (x =? y)%N then pystr_ltb a' b' else false
  end.

(** One more row for the group of [keyword] in a table of group sizes kept
    in ascending order of the keys. *)
Fixpoint bump (keyword : pystr) (sizes : list (pystr * nat))
    : list (pystr * nat) :=
  match sizes with
  | [] => [(keyword, 1%nat)]
  | (k, n) :: rest =>
      if pystr_eqb keyword k then (k, S n) :: rest
      else if pystr_ltb keyword k then (keyword, 1%nat) :: sizes
      else (k, n) :: bump keyword rest
  end.

(** [groupby(keyword).size().reset_index(...)]: one line per keyword that
    occurs, in ascending order, with its number of rows. *)
Fixpoint groupby_size (keys : list pystr) : list (pystr * nat) :=
  match keys with
  | [] => []
  | k :: rest => bump k (groupby_size rest)
  end.

(** The table of lines 456-459: per keyword, how many found rows have a
    rank of at most 20.  [pd.DataFrame([])] has no columns, so on a batch
    result without rows the lookup of the found column raises. *)
Definition top20_count (results_df : list Row) : list (pystr * nat) + exn :=
  match results_df with
  | [] => inr (OtherException (of_string "KeyError") [])
  | _ :: _ =>
      match found_ranks results_df with
      | inl top20_df =>
          let top20_df := filter (fun r => snd r <=? 20) top20_df in
          inl (groupby_size (map fst top20_df))
      | inr e => inr e
      end
  end.

(** Number of found rows of [keyword] with a rank of at most 20. *)
Definition top20_rows (results_df : list Row) (keyword : pystr) : nat :=
  length (filter (fun row =>
                    row_found row && pystr_eqb (row_keyword row) keyword &&
                    match row_rank row with
                    | RankInt rank => rank <=? 20
                    | RankNotFound => false
                    end) results_df).

(** The size listed for [keyword], if it is listed. *)
Fixpoint size_of (keyword : pystr) (sizes : list (pystr * nat)) : option nat :=
  match sizes with
  | [] => None
  | (k, n) :: rest =>
      if pystr_eqb keyword k then Some n else size_of keyword rest
  end.

(** The keys of a table of sizes are in strictly ascending order. *)
Definition ascending (sizes : list (pystr * nat)) : Prop :=
  StronglySorted (fun x y => pystr_ltb (fst x) (fst y) = true) sizes.

(** Number of occurrences of a key. *)
Definition occurrences (keyword : pystr) (keys : list pystr) : nat :=
  length (filter (pystr_eqb keyword) keys).

(** ** The download link, lines 272-277 *)

(** The bytes of one code point under the [utf-8] codec; a surrogate has
    none and raises [UnicodeEncodeError]. *)
Definition utf8_char (c : N) : list N + exn :=
  (if c <? 128 then inl [c]
   else if c <? 2048 then inl [192 + c / 64; 128 + c mod 64]
   else if (55296 <=? c) && (c <=? 57343) then
     inr (OtherException (of_string "UnicodeEncodeError")
                         (of_string "surrogates not allowed"))
   else if c <? 65536 then
     inl [224 + c / 4096; 128 + (c / 64) mod 64; 128 + c mod 64]
   else
     inl [240 + c / 262144; 128 + (c / 4096) mod 64;
          128 + (c / 64) mod 64; 128 + c mod 64])%N.

Fixpoint utf8 (s : pystr) : list N + exn :=
  match s with
  | [] => inl []
  | c :: s' =>
      match utf8_char c with
      | inl bytes =>
          match utf8 s' with
          | inl rest => inl (bytes ++ rest)
          | inr e => inr e
          end
      | inr e => inr e
      end
  end.

(** The byte order mark the [utf-8-sig] codec writes first. *)
Definition BOM : list N := [239; 187; 191]%N.

(** [s.encode('utf-8-sig')] *)
Definition encode_utf_8_sig (s : pystr) : list N + exn :=
  match utf8 s with
  | inl bytes => inl (BOM ++ bytes)
  | inr e => inr e
  end.

(** The character of a 6-bit value in the base64 alphabet. *)
Definition b64_char (i : N) : N :=
  (if i <? 26 then 65 + i
   else if i <? 52 then 97 + (i - 26)
   else if i <? 62 then 48 + (i - 52)
   else if i =? 62 then 43 else 47)%N.

(** [base64.b64encode(bytes).decode()] *)
Fixpoint b64encode (bytes : list N) : pystr :=
  match bytes with
  | [] => []
  | [a] =>
      [b64_char (a / 4); b64_char ((a mod 4) * 16); 61; 61]%N
  | [a; b] =>
      [b64_char (a / 4); b64_char ((a mod 4) * 16 + b / 16);
       b64_char ((b mod 16) * 4); 61]%N
  | a :: b :: c :: rest =>
      [b64_char (a / 4); b64_char ((a mod 4) * 16 + b / 16);
       b64_char ((b mod 16) * 4 + c / 64); b64_char (c mod 64)]%N
      ++ b64encode rest
  end.

(** The text before and after the payload of the link. *)
Definition link_head : pystr :=
  of_string "<a href=" ++ [34%N] ++ of_string "data:file/csv;base64,".

Definition link_tail (filename : pystr) : pystr :=
  [34%N] ++ of_string " download=" ++ [34%N] ++ filename ++ [34%N]
  ++ of_string ">CSV " ++ [54028; 51068; 32; 45796; 50868; 47196; 46300]%N
  ++ of_string "</a>".

Section DownloadLink.

(** A table and [df.to_csv(index=False, encoding='utf-8-sig')], which
    returns a [str]. *)
Variable DataFrame : Type.
Variable to_csv : DataFrame -> pystr.

Definition get_csv_download_link (df : DataFrame) (filename : pystr)
    : pystr + exn :=
  let csv := to_csv df in
  match encode_utf_8_sig csv with
  | inl bytes =>
      let b64 := b64encode bytes in
      let href := link_head ++ b64 ++ link_tail filename in
      inl href
  | inr e => inr e
  end.

End DownloadLink.

(** A character of base64 text: a letter, a digit, [+], [/] or [=]. *)
Definition is_b64 (c : N) : bool :=
  ((65 <=? c) && (c <=? 90) || (97 <=? c) && (c <=? 122)
   || (48 <=? c) && (c <=? 57) || (c =? 43) || (c =? 47) || (c =? 61))%N.

Definition is_surrogate (c : N) : bool :=
  ((55296 <=? c) && (c <=? 57343))%N.

(** The 6-bit value of a character of the alphabet. *)
Definition b64_index (c : N) : N :=
  (if (65 <=? c) && (c <=? 90) then c - 65
   else if (97 <=? c) && (c <=? 122) then c - 97 + 26
   else if (48 <=? c) && (c <=? 57) then c - 48 + 52
   else if c =? 43 then 62 else 63)%N.

(** Decoding of base64 text, four characters at a time; [=] fills the
    last group. *)
Fixpoint b64decode (text : pystr) : list N :=
  match text with
  | c0 :: c1 :: c2 :: c3 :: rest =>
      let i0 := b64_index c0 in
      let i1 := b64_index c1 in
      let i2 := b64_index c2 in
      let i3 := b64_index c3 in
      (if (c2 =? 61)%N then [i0 * 4 + i1 / 16]
       else if (c3 =? 61)%N then
         [i0 * 4 + i1 / 16; (i1 mod 16) * 16 + i2 / 4]
       else
         [i0 * 4 + i1 / 16; (i1 mod 16) * 16 + i2 / 4;
          (i2 mod 4) * 64 + i3])%N
      ++ b64decode rest
  | _ => []
  end.

(** ** Vocabulary for traces and tables *)

Definition is_get (e : event) : bool :=
  match e with EGet _ => true | _ => false end.
Definition is_sleep (e : event) : bool :=
  match e with ESleep _ => true | _ => false end.

(** The urls navigated to, in order. *)
Fixpoint gets (evs : list event) : list pystr :=
  match evs with
  | [] => []
  | EGet url :: evs' => url :: gets evs'
  | _ :: evs' => gets evs'
  end.

(** Whether a pause has been made since the last navigation, after [evs]. *)
Fixpoint rested_after (rested : bool) (evs : list event) : bool :=
  match evs with
  | [] => rested
  | EGet _ :: evs' => rested_after false evs'
  | ESleep _ :: evs' => rested_after true evs'
  | _ :: evs' => rested_after rested evs'
  end.

(** No navigation follows another without a pause in between. *)
Fixpoint paced (rested : bool) (evs : list event) : bool :=
  match evs with
  | [] => true
  | EGet _ :: evs' => rested && paced false evs'
  | ESleep _ :: evs' => paced true evs'
  | _ :: evs' => paced rested evs'
  end.

(** The two rank columns of a row agree: found with a rank of at least 1,
    or not found with the text. *)
Definition row_consistent (r : Row) : Prop :=
  (row_found r = true /\ exists k, row_rank r = RankInt k /\ 1 <= k) \/
  (row_found r = false /\ row_rank r = RankNotFound).

(** ** The entry loop *)

Lemma pystr_eqb_eq (a b : pystr) : pystr_eqb a b = true <-> a = b.
Proof.
  revert b; induction a as [|x a IH]; intros [|y b]; simpl;
    try (split; [discriminate | discriminate]); try tauto.
  rewrite andb_true_iff, N.eqb_eq, IH.
  split; [intros [-> ->]; reflexivity | intros E; inversion E; auto].
Qed.

Lemma for_shop_elements_spec (es : list Tag) (shop_name : pystr) (rank : Z) :
  for_shop_elements es shop_name rank =
  match find_match shop_name es with
  | Some j => inl (rank + Z.of_nat j + 1)
  | None => inr (rank + Z.of_nat (length es))
  end.
Proof.
  revert rank; induction es as [|e es IH]; intros rank.
  - simpl. f_equal. lia.
  - cbn [for_shop_elements find_match]. unfold matches.
    assert (Hrest : for_shop_elements es shop_name (rank + 1) =
                    match option_map S (find_match shop_name es) with
                    | Some j => inl (rank + Z.of_nat j + 1)
                    | None => inr (rank + Z.of_nat (length (e :: es)))
                    end).
    { rewrite IH. destruct (find_match shop_name es); simpl option_map; cbv iota.
      - f_equal. lia.
      - f_equal. simpl length. lia. }
    destruct (ad_element e); simpl negb; cbn [andb]; [exact Hrest|].
    destruct (shop_name_element e) as [text|]; [|exact Hrest].
    destruct (pystr_eqb (strip text) shop_name); [|exact Hrest].
    f_equal. simpl. lia.
Qed.

Lemma find_match_Some (shop_name : pystr) (es : list Tag) (j : nat) :
  find_match shop_name es = Some j ->
  exists e, nth_error es j = Some e /\ matches shop_name e = true /\
            forall i e', (i < j)%nat -> nth_error es i = Some e' ->
                         matches shop_name e' = false.
Proof.
  revert j; induction es as [|e es IH]; intros j; simpl; [discriminate|].
  destruct (matches shop_name e) eqn:Em.
  - intros [= <-]. exists e. repeat split; auto. intros i e' Hi. lia.
  - destruct (find_match shop_name es) as [j'|]; simpl; [|discriminate].
    intros [= <-]. destruct (IH j' eq_refl) as (e0 & Hn & Hm & Hb).
    exists e0. repeat split; auto.
    intros [|i] e' Hi; simpl.
    + intros [= <-]. exact Em.
    + intros Hn'. apply (Hb i e'); [lia | exact Hn'].
Qed.

Lemma find_match_None (shop_name : pystr) (es : list Tag) :
  find_match shop_name es = None <->
  forall e, In e es -> matches shop_name e = false.
Proof.
  induction es as [|e es IH]; simpl.
  - split; [intros _ e [] | reflexivity].
  - destruct (matches shop_name e) eqn:Em.
    + split; [discriminate|]. intros H. specialize (H e (or_introl eq_refl)).
      congruence.
    + destruct (find_match shop_name es); simpl.
      * split; [discriminate|]. intros H.
        assert (@None nat = Some n) as Habs; [|discriminate Habs].
        symmetry. apply IH. intros e' He'. apply H. now right.
      * split; [|reflexivity]. intros _ e' [<-|He']; [exact Em|].
        now apply IH.
Qed.

Lemma find_match_first (shop_name : pystr) (es : list Tag) (j : nat) (e : Tag) :
  nth_error es j = Some e -> matches shop_name e = true ->
  (forall i e', (i < j)%nat -> nth_error es i = Some e' ->
                matches shop_name e' = false) ->
  find_match shop_name es = Some j.
Proof.
  revert j; induction es as [|e0 es IH]; intros [|j]; simpl; try discriminate.
  - intros [= ->] -> _. reflexivity.
  - intros Hn Hm Hb.
    rewrite (Hb O e0); [|lia|reflexivity].
    rewrite (IH j Hn Hm); [reflexivity|].
    intros i e' Hi Hi'. apply (Hb (S i) e'); [lia | exact Hi'].
Qed.

(** ** Running the monad *)

Lemma bind_ok {A B} (m : M A) (f : A -> M B) (w w1 : World) (a : A)
    (evs : list event) :
  m w = mkRun (inl a) w1 evs ->
  bind m f w = mkRun (res (f a w1)) (final (f a w1)) (evs ++ emitted (f a w1)).
Proof. intros H. unfold bind. rewrite H. reflexivity. Qed.

Lemma bind_raise {A B} (m : M A) (f : A -> M B) (w w1 : World) (e : exn)
    (evs : list event) :
  m w = mkRun (inr e) w1 evs ->
  bind m f w = mkRun (inr e) w1 evs.
Proof. intros H. unfold bind. rewrite H. reflexivity. Qed.

Lemma shop_list_ok (driver : WebDriver) (w : World) (es : list Tag) :
  source (page w) (scrolls w) = inr es ->
  shop_list driver w = mkRun (inl es) w [EPageSource].
Proof. intros H. unfold shop_list, bind, emit. cbn. rewrite H. reflexivity. Qed.

Lemma shop_list_raise (driver : WebDriver) (w : World) (e : exn) :
  source (page w) (scrolls w) = inl e ->
  shop_list driver w = mkRun (inr e) w [EPageSource].
Proof. intros H. unfold shop_list, bind, emit. cbn. rewrite H. reflexivity. Qed.

Lemma driver_execute_script_ok (driver : WebDriver) (w : World) :
  scroll_raises (page w) (scrolls w) = None ->
  driver_execute_script driver w = mkRun (inl tt) (scrolled w) [EExecuteScript].
Proof. intros H. unfold driver_execute_script. rewrite H. reflexivity. Qed.

Lemma driver_execute_script_raise (driver : WebDriver) (w : World) (e : exn) :
  scroll_raises (page w) (scrolls w) = Some e ->
  driver_execute_script driver w = mkRun (inr e) w [EExecuteScript].
Proof. intros H. unfold driver_execute_script. rewrite H. reflexivity. Qed.

Lemma time_sleep_run (secs : Z) (w : World) :
  time_sleep secs w = mkRun (inl tt) w [ESleep secs].
Proof. reflexivity. Qed.

(** ** One pass of the scroll loop *)

Section Cycles.

Variables (driver : WebDriver) (shop_name : pystr) (max_scrolls : Z).

Lemma while_loop_done (fuel : nat) (scroll_count rank : Z) (w : World) :
  max_scrolls <= scroll_count ->
  while_loop fuel driver shop_name max_scrolls scroll_count rank w =
  mkRun (inl (-1)) w [].
Proof.
  intros H. destruct fuel; [reflexivity|]. cbn [while_loop].
  apply Z.ltb_ge in H. rewrite H. reflexivity.
Qed.

Lemma while_loop_match (fuel : nat) (scroll_count rank : Z) (w : World)
    (es : list Tag) (j : nat) :
  scroll_count < max_scrolls ->
  source (page w) (scrolls w) = inr es ->
  find_match shop_name es = Some j ->
  while_loop (S fuel) driver shop_name max_scrolls scroll_count rank w =
  mkRun (inl (rank + Z.of_nat j + 1)) w [EPageSource].
Proof.
  intros Hc Hs Hf. cbn [while_loop].
  apply Z.ltb_lt in Hc. rewrite Hc.
  erewrite bind_ok by (apply shop_list_ok; exact Hs).
  rewrite for_shop_elements_spec, Hf. reflexivity.
Qed.

Lemma while_loop_quiet (fuel : nat) (scroll_count rank : Z) (w : World)
    (es : list Tag) :
  scroll_count < max_scrolls ->
  source (page w) (scrolls w) = inr es ->
  find_match shop_name es = None ->
  scroll_raises (page w) (scrolls w) = None ->
  while_loop (S fuel) driver shop_name max_scrolls scroll_count rank w =
  let r := while_loop fuel driver shop_name max_scrolls
             (scroll_count + 1) (rank + Z.of_nat (length es)) (scrolled w) in
  mkRun (res r) (final r) (cycle_events ++ emitted r).
Proof.
  intros Hc Hs Hf Hq. cbn [while_loop].
  apply Z.ltb_lt in Hc. rewrite Hc.
  erewrite bind_ok by (apply shop_list_ok; exact Hs).
  rewrite for_shop_elements_spec, Hf.
  erewrite bind_ok by (apply driver_execute_script_ok; exact Hq).
  erewrite bind_ok by (apply time_sleep_run).
  cbn [res final emitted]. reflexivity.
Qed.

Lemma while_loop_parse_raises (fuel : nat) (scroll_count rank : Z) (w : World)
    (e : exn) :
  scroll_count < max_scrolls ->
  source (page w) (scrolls w) = inl e ->
  while_loop (S fuel) driver shop_name max_scrolls scroll_count rank w =
  mkRun (inr e) w [EPageSource].
Proof.
  intros Hc Hs. cbn [while_loop].
  apply Z.ltb_lt in Hc. rewrite Hc.
  erewrite bind_raise by (apply shop_list_raise; exact Hs). reflexivity.
Qed.

Lemma while_loop_scroll_raises (fuel : nat) (scroll_count rank : Z) (w : World)
    (es : list Tag) (e : exn) :
  scroll_count < max_scrolls ->
  source (page w) (scrolls w) = inr es ->
  find_match shop_name es = None ->
  scroll_raises (page w) (scrolls w) = Some e ->
  while_loop (S fuel) driver shop_name max_scrolls scroll_count rank w =
  mkRun (inr e) w [EPageSource; EExecuteScript].
Proof.
  intros Hc Hs Hf Hq. cbn [while_loop].
  apply Z.ltb_lt in Hc. rewrite Hc.
  erewrite bind_ok by (apply shop_list_ok; exact Hs).
  rewrite for_shop_elements_spec, Hf.
  erewrite bind_raise by (apply driver_execute_script_raise; exact Hq).
  reflexivity.
Qed.

End Cycles.

(** ** The scroll loop as a whole *)

Lemma quiet_head (p : Page) (shop_name : pystr) (s k : nat) :
  quiet p shop_name s (S k) ->
  exists es, source p s = inr es /\ find_match shop_name es = None /\
             scroll_raises p s = None.
Proof.
  intros H. destruct (H O) as (es & H1 & H2 & H3); [lia|].
  rewrite Nat.add_0_r in H1, H3. eauto.
Qed.

Lemma quiet_tail (p : Page) (shop_name : pystr) (s k : nat) :
  quiet p shop_name s (S k) -> quiet p shop_name (S s) k.
Proof.
  intros H i Hi. destruct (H (S i)) as (es & H1 & H2 & H3); [lia|].
  rewrite Nat.add_succ_r in H1, H3. simpl. eauto.
Qed.

Lemma quiet_cons (p : Page) (shop_name : pystr) (s k : nat) (es : list Tag) :
  source p s = inr es -> find_match shop_name es = None ->
  scroll_raises p s = None ->
  quiet p shop_name (S s) k -> quiet p shop_name s (S k).
Proof.
  intros H1 H2 H3 H [|i] Hi.
  - rewrite Nat.add_0_r. eauto.
  - destruct (H i) as (es' & H1' & H2' & H3'); [lia|].
    rewrite Nat.add_succ_r. simpl in H1', H3'. eauto.
Qed.

Lemma count_cycles (k : nat) :
  count is_page_source (cycles k) = k /\
  count is_execute_script (cycles k) = k.
Proof.
  induction k as [|k [IH1 IH2]]; [split; reflexivity|].
  unfold count in *. simpl. rewrite IH1, IH2. split; reflexivity.
Qed.

Section Loop.

Variables (driver : WebDriver) (shop_name : pystr) (max_scrolls : Z).

(** More fuel than the passes still allowed changes nothing. *)
Lemma while_loop_fuel (fuel extra : nat) (scroll_count rank : Z) (w : World) :
  (Z.to_nat (max_scrolls - scroll_count) <= fuel)%nat ->
  while_loop (fuel + extra) driver shop_name max_scrolls scroll_count rank w =
  while_loop fuel driver shop_name max_scrolls scroll_count rank w.
Proof.
  revert scroll_count rank w.
  induction fuel as [|fuel IH]; intros c rank w Hf.
  - rewrite !while_loop_done by lia. reflexivity.
  - destruct (Z_lt_le_dec c max_scrolls) as [Hc|Hc];
      [|rewrite !while_loop_done by lia; reflexivity].
    cbn [Nat.add].
    destruct (source (page w) (scrolls w)) as [e|es] eqn:Hs.
    { rewrite !(while_loop_parse_raises _ _ _ _ _ _ _ e) by assumption.
      reflexivity. }
    destruct (find_match shop_name es) as [j|] eqn:Hm.
    { rewrite !(while_loop_match _ _ _ _ _ _ _ es j) by assumption.
      reflexivity. }
    destruct (scroll_raises (page w) (scrolls w)) as [e|] eqn:Hq.
    { rewrite !(while_loop_scroll_raises _ _ _ _ _ _ _ es e) by assumption.
      reflexivity. }
    rewrite !(while_loop_quiet _ _ _ _ _ _ _ es) by assumption.
    cbv zeta. rewrite IH by lia. reflexivity.
Qed.

(** In particular the [Z.to_nat max_scrolls] passes [search_body] allows for
    are all the loop can make from [scroll_count = 0]. *)
Lemma while_loop_fuel_enough (extra : nat) (rank : Z) (w : World) :
  while_loop (Z.to_nat max_scrolls + extra) driver shop_name max_scrolls 0
             rank w =
  while_loop (Z.to_nat max_scrolls) driver shop_name max_scrolls 0 rank w.
Proof. apply while_loop_fuel. rewrite Z.sub_0_r. lia. Qed.

(** After [k] passes that find nothing, a first match at index [j] of the
    next snapshot is returned as [rank] plus every entry walked so far. *)
Lemma while_loop_finds (k : nat) :
  forall (fuel : nat) (scroll_count rank : Z) (w : World) (es : list Tag)
         (j : nat),
  (k < fuel)%nat -> scroll_count + Z.of_nat k < max_scrolls ->
  quiet (page w) shop_name (scrolls w) k ->
  source (page w) (scrolls w + k) = inr es ->
  find_match shop_name es = Some j ->
  let r := while_loop fuel driver shop_name max_scrolls scroll_count rank w in
  res r = inl (rank + offset (page w) (scrolls w) k + Z.of_nat j + 1) /\
  emitted r = cycles k ++ [EPageSource].
Proof.
  induction k as [|k IH]; intros fuel c rank w es j Hfuel Hc Hq Hs Hm;
    destruct fuel as [|fuel]; try lia.
  - rewrite Nat.add_0_r in Hs.
    cbv zeta. rewrite (while_loop_match _ _ _ _ _ _ _ es j) by (assumption || lia).
    cbn [res emitted offset cycles app]. split; [f_equal; lia | reflexivity].
  - destruct (quiet_head _ _ _ _ Hq) as (es0 & Hs0 & Hm0 & Hq0).
    cbv zeta. rewrite (while_loop_quiet _ _ _ _ _ _ _ es0) by (assumption || lia).
    cbv zeta. cbn [res emitted].
    destruct (IH fuel (c + 1) (rank + Z.of_nat (length es0)) (scrolled w) es j)
      as [Hr He]; try lia.
    + apply quiet_tail in Hq. exact Hq.
    + cbn [scrolled page scrolls]. rewrite <- Hs. f_equal. lia.
    + exact Hm.
    + cbv zeta in Hr, He. rewrite Hr, He. cbn [scrolled page scrolls].
      split; [|rewrite app_assoc; reflexivity].
      f_equal. cbn [offset]. unfold snapshot_len. rewrite Hs0. lia.
Qed.

(** Passes that find nothing use up the whole budget. *)
Lemma while_loop_exhausts (k : nat) :
  forall (fuel : nat) (scroll_count rank : Z) (w : World),
  (k <= fuel)%nat -> k = Z.to_nat (max_scrolls - scroll_count) ->
  quiet (page w) shop_name (scrolls w) k ->
  let r := while_loop fuel driver shop_name max_scrolls scroll_count rank w in
  res r = inl (-1) /\ emitted r = cycles k.
Proof.
  induction k as [|k IH]; intros fuel c rank w Hfuel Hk Hq.
  - cbv zeta. rewrite while_loop_done by lia. split; reflexivity.
  - destruct fuel as [|fuel]; [lia|].
    destruct (quiet_head _ _ _ _ Hq) as (es0 & Hs0 & Hm0 & Hq0).
    cbv zeta. rewrite (while_loop_quiet _ _ _ _ _ _ _ es0) by (assumption || lia).
    cbv zeta. cbn [res emitted].
    destruct (IH fuel (c + 1) (rank + Z.of_nat (length es0)) (scrolled w))
      as [Hr He]; try lia.
    + apply quiet_tail in Hq. exact Hq.
    + cbv zeta in Hr, He. rewrite Hr, He. split; reflexivity.
Qed.

(** A rank that comes out of the loop is that of a match. *)
Lemma while_loop_sound (fuel : nat) :
  forall (scroll_count rank r : Z) (w : World),
  res (while_loop fuel driver shop_name max_scrolls scroll_count rank w) = inl r ->
  r <> -1 ->
  exists (k : nat) (es : list Tag) (j : nat),
    scroll_count + Z.of_nat k < max_scrolls /\
    quiet (page w) shop_name (scrolls w) k /\
    source (page w) (scrolls w + k) = inr es /\
    find_match shop_name es = Some j /\
    r = rank + offset (page w) (scrolls w) k + Z.of_nat j + 1.
Proof.
  induction fuel as [|fuel IH]; intros c rank r w Hr Hne.
  - cbn in Hr. congruence.
  - destruct (Z_lt_le_dec c max_scrolls) as [Hc|Hc];
      [|rewrite while_loop_done in Hr by lia; cbn in Hr; congruence].
    destruct (source (page w) (scrolls w)) as [e|es] eqn:Hs.
    { rewrite (while_loop_parse_raises _ _ _ _ _ _ _ e) in Hr by assumption.
      discriminate. }
    destruct (find_match shop_name es) as [j|] eqn:Hm.
    { rewrite (while_loop_match _ _ _ _ _ _ _ es j) in Hr by assumption.
      cbn in Hr. injection Hr as <-.
      exists O, es, j. rewrite Nat.add_0_r. cbn [offset].
      repeat split; try assumption; try lia.
      intros i Hi. lia. }
    destruct (scroll_raises (page w) (scrolls w)) as [e|] eqn:Hq.
    { rewrite (while_loop_scroll_raises _ _ _ _ _ _ _ es e) in Hr by assumption.
      discriminate. }
    rewrite (while_loop_quiet _ _ _ _ _ _ _ es) in Hr by assumption.
    cbv zeta in Hr. cbn [res] in Hr.
    destruct (IH _ _ _ _ Hr Hne) as (k & es' & j & Hk & Hqk & Hsk & Hmk & Hrk).
    cbn [scrolled page scrolls] in Hqk, Hsk, Hrk.
    exists (S k), es', j. repeat split.
    + lia.
    + eapply quiet_cons; eauto.
    + rewrite <- Hsk. f_equal. lia.
    + exact Hmk.
    + cbn [offset]. unfold snapshot_len. rewrite Hs. lia.
Qed.

(** Every pass reads the page once, so the budget bounds the reads. *)
Lemma while_loop_reads (fuel : nat) :
  forall (scroll_count rank : Z) (w : World),
  (count is_page_source
     (emitted (while_loop fuel driver shop_name max_scrolls scroll_count rank w))
   <= fuel)%nat.
Proof.
  induction fuel as [|fuel IH]; intros c rank w; [cbn; lia|].
  destruct (Z_lt_le_dec c max_scrolls) as [Hc|Hc];
    [|rewrite while_loop_done by lia; cbn; lia].
  destruct (source (page w) (scrolls w)) as [e|es] eqn:Hs.
  { rewrite (while_loop_parse_raises _ _ _ _ _ _ _ e) by assumption. cbn. lia. }
  destruct (find_match shop_name es) as [j|] eqn:Hm.
  { rewrite (while_loop_match _ _ _ _ _ _ _ es j) by assumption. cbn. lia. }
  destruct (scroll_raises (page w) (scrolls w)) as [e|] eqn:Hq.
  { rewrite (while_loop_scroll_raises _ _ _ _ _ _ _ es e) by assumption.
    cbn. lia. }
  rewrite (while_loop_quiet _ _ _ _ _ _ _ es) by assumption.
  cbv zeta. cbn [emitted]. unfold count in *. cbn.
  specialize (IH (c + 1) (rank + Z.of_nat (length es)) (scrolled w)). lia.
Qed.

End Loop.

(** ** One resolution *)

Section Resolution.

Variable env : Env.
Variables (driver : WebDriver) (keyword shop_name : pystr) (max_scrolls : Z).
Variable w : World.

Let p := landing env w keyword.
Let url := build_url keyword.

Lemma driver_get_run :
  driver_get env driver url w =
  mkRun (match get_raises p with Some e => inr e | None => inl tt end)
        (landed env w keyword) [EGet url].
Proof. reflexivity. Qed.

Lemma wait_frame_run (timeout : Z) (w1 : World) :
  wait_frame driver timeout w1 =
  mkRun (match frame_wait_raises (page w1) with
         | Some e => inr e | None => inl tt end)
        w1 [EWaitFrame timeout].
Proof.
  unfold wait_frame, bind, emit, raise_if. cbn.
  destruct (frame_wait_raises (page w1)); reflexivity.
Qed.

Lemma wait_container_run (timeout : Z) (w1 : World) :
  wait_container driver timeout w1 =
  mkRun (match container_wait_raises (page w1) with
         | Some e => inr e | None => inl tt end)
        w1 [EWaitContainer timeout].
Proof.
  unfold wait_container, bind, emit, raise_if. cbn.
  destruct (container_wait_raises (page w1)); reflexivity.
Qed.

(** The two guarded waits, lines 89-104. *)
Lemma try_wait_run (wait : M unit) (m : st_message) (w1 : World)
    (o : option exn) (ev : event) :
  wait w1 = mkRun (match o with Some e => inr e | None => inl tt end) w1 [ev] ->
  try_except (wait ;; ret (@None Z)) is_TimeoutException
    (fun _ => st_error m ;; ret (Some (-1))) w1 =
  match o with
  | None => mkRun (inl None) w1 [ev]
  | Some e =>
      if is_TimeoutException e then mkRun (inl (Some (-1))) w1 [ev; EStError m]
      else mkRun (inr e) w1 [ev]
  end.
Proof.
  intros H. unfold try_except, bind. rewrite H.
  destruct o as [e|]; cbn; [|reflexivity].
  destruct (is_TimeoutException e); reflexivity.
Qed.

Lemma search_body_get_raises (e : exn) :
  get_raises p = Some e ->
  search_body env driver keyword shop_name max_scrolls w =
  mkRun (inr e) (landed env w keyword) [EGet url].
Proof.
  intros Hg. unfold search_body. fold url.
  erewrite bind_raise; [reflexivity|]. rewrite driver_get_run, Hg. reflexivity.
Qed.

Lemma search_body_loads :
  get_raises p = None ->
  search_body env driver keyword shop_name max_scrolls w =
  match frame_wait_raises p with
  | Some e =>
      if is_TimeoutException e then
        mkRun (inl (-1)) (landed env w keyword)
              [EGet url; EStText (MsgConnecting url); EWaitFrame 10;
               EStError MsgFrameTimeout]
      else
        mkRun (inr e) (landed env w keyword)
              [EGet url; EStText (MsgConnecting url); EWaitFrame 10]
  | None =>
      match container_wait_raises p with
      | Some e =>
          if is_TimeoutException e then
            mkRun (inl (-1)) (landed env w keyword)
                  (arrival_events keyword ++ [EStError MsgLoadFailed])
          else
            mkRun (inr e) (landed env w keyword) (arrival_events keyword)
      | None =>
          let r := while_loop (Z.to_nat max_scrolls) driver shop_name
                     max_scrolls 0 0 (landed env w keyword) in
          mkRun (res r) (final r) (arrival_events keyword ++ emitted r)
      end
  end.
Proof.
  intros Hg. unfold search_body. fold url.
  erewrite bind_ok by (rewrite driver_get_run, Hg; reflexivity).
  erewrite bind_ok by reflexivity.
  pose proof (try_wait_run (wait_frame driver 10) MsgFrameTimeout
                (landed env w keyword) (frame_wait_raises p) (EWaitFrame 10)
                (wait_frame_run 10 _)) as Hfr.
  pose proof (try_wait_run (wait_container driver 10) MsgLoadFailed
                (landed env w keyword) (container_wait_raises p)
                (EWaitContainer 10) (wait_container_run 10 _)) as Hco.
  destruct (frame_wait_raises p) as [e|].
  { destruct (is_TimeoutException e).
    - erewrite bind_ok by exact Hfr. reflexivity.
    - erewrite bind_raise by exact Hfr. reflexivity. }
  erewrite bind_ok by exact Hfr. cbv iota.
  destruct (container_wait_raises p) as [e|].
  { destruct (is_TimeoutException e).
    - erewrite bind_ok by exact Hco. reflexivity.
    - erewrite bind_raise by exact Hco. reflexivity. }
  erewrite bind_ok by exact Hco. cbv iota. reflexivity.
Qed.

(** The outer [except Exception] turns a raising body into [-1]. *)
Lemma search_single_business_run :
  let b := search_body env driver keyword shop_name max_scrolls w in
  search_single_business env driver keyword shop_name max_scrolls w =
  match res b with
  | inl r => b
  | inr e => mkRun (inl (-1)) (final b) (emitted b ++ [EStError (MsgException e)])
  end.
Proof.
  cbv zeta. unfold search_single_business, try_except.
  destruct (res (search_body env driver keyword shop_name max_scrolls w));
    reflexivity.
Qed.

Lemma search_single_business_returns :
  exists r, res (search_single_business env driver keyword shop_name
                   max_scrolls w) = inl r.
Proof.
  rewrite search_single_business_run. cbv zeta.
  destruct (res (search_body env driver keyword shop_name max_scrolls w))
    as [r|e] eqn:Hb; [exists r; exact Hb | exists (-1); reflexivity].
Qed.

End Resolution.

(** ** What a resolution returns *)

Lemma matches_true (shop_name : pystr) (e : Tag) :
  matches shop_name e = true <->
  ad_element e = false /\
  option_map strip (shop_name_element e) = Some shop_name.
Proof.
  unfold matches. destruct (ad_element e); cbn.
  - split; [discriminate | intros [H _]; discriminate].
  - destruct (shop_name_element e) as [text|]; cbn.
    + rewrite pystr_eqb_eq. split; [intros ->; auto | intros [_ [= ->]]; auto].
    + split; [discriminate | intros [_ H]; discriminate].
Qed.

Lemma count_sponsored_organic (es : list Tag) :
  (count_sponsored es + count_organic es = length es)%nat.
Proof.
  unfold count_sponsored, count_organic.
  induction es as [|e es IH]; simpl; [reflexivity|].
  destruct (ad_element e); simpl; lia.
Qed.

Lemma rank_at_spec (es : list Tag) (rank : Z) (j : nat) :
  rank_at es rank j =
  match nth_error es j with
  | Some _ => Some (rank + Z.of_nat j + 1)
  | None => None
  end.
Proof.
  revert rank j; induction es as [|e es IH]; intros rank [|j]; simpl;
    try reflexivity.
  - f_equal. lia.
  - rewrite IH. destruct (nth_error es j); [f_equal; lia | reflexivity].
Qed.

(** What the loop returns at a match is the value [rank] has there. *)
Lemma for_shop_elements_rank_at (es : list Tag) (shop_name : pystr)
    (rank : Z) (j : nat) :
  find_match shop_name es = Some j ->
  exists r, for_shop_elements es shop_name rank = inl r /\
            rank_at es rank j = Some r.
Proof.
  intros Hm. rewrite for_shop_elements_spec, Hm, rank_at_spec.
  destruct (find_match_Some _ _ _ Hm) as (e & Hn & _). rewrite Hn. eauto.
Qed.

Section Outcome.

Variable env : Env.
Variables (driver : WebDriver) (keyword shop_name : pystr) (max_scrolls : Z).
Variable w : World.

Let p := landing env w keyword.

Lemma search_single_business_loaded :
  loads p ->
  let r := while_loop (Z.to_nat max_scrolls) driver shop_name max_scrolls 0 0
             (landed env w keyword) in
  let s := search_single_business env driver keyword shop_name max_scrolls w in
  res s = match res r with inl v => inl v | inr _ => inl (-1) end /\
  emitted s = arrival_events keyword ++ emitted r ++
              match res r with
              | inl _ => []
              | inr e => [EStError (MsgException e)]
              end.
Proof.
  intros (Hg & Hf & Hc). cbv zeta.
  rewrite search_single_business_run. cbv zeta.
  rewrite search_body_loads by exact Hg.
  fold p. rewrite Hf, Hc. cbv zeta. cbn [res final emitted].
  destruct (res (while_loop (Z.to_nat max_scrolls) driver shop_name
                   max_scrolls 0 0 (landed env w keyword))) as [v|e];
    cbn [res emitted]; split; try reflexivity;
    rewrite ?app_nil_r, <- ?app_assoc; reflexivity.
Qed.

(** The rank returned for a target first seen after [k] scrolls: its
    position in that snapshot plus every entry walked in earlier passes. *)
Lemma search_single_business_found (k : nat) (es : list Tag) (j : nat) :
  loads p -> Z.of_nat k < max_scrolls ->
  quiet p shop_name 0 k ->
  source p k = inr es -> find_match shop_name es = Some j ->
  res (search_single_business env driver keyword shop_name max_scrolls w) =
  inl (offset p 0 k + Z.of_nat j + 1).
Proof.
  intros Hl Hk Hq Hs Hm.
  destruct (search_single_business_loaded Hl) as [Hr _]. cbv zeta in Hr.
  rewrite Hr.
  pose proof (while_loop_finds driver shop_name max_scrolls k
                (Z.to_nat max_scrolls) 0 0 (landed env w keyword) es j) as Hw.
  cbn [landed page scrolls] in Hw. fold p in Hw.
  specialize (Hw ltac:(lia) ltac:(lia) Hq Hs Hm). cbv zeta in Hw.
  destruct Hw as [Hw _].
  fold (landed env w keyword) in Hw. rewrite Hw. reflexivity.
Qed.

(** A rank other than [-1] is that of an organic entry carrying the name. *)
Lemma search_single_business_sound (r : Z) :
  res (search_single_business env driver keyword shop_name max_scrolls w) =
  inl r ->
  r <> -1 ->
  exists (k : nat) (es : list Tag) (j : nat),
    Z.of_nat k < max_scrolls /\ quiet p shop_name 0 k /\
    source p k = inr es /\ find_match shop_name es = Some j /\
    r = offset p 0 k + Z.of_nat j + 1.
Proof.
  intros Hr Hne.
  rewrite search_single_business_run in Hr. cbv zeta in Hr.
  destruct (get_raises p) as [e|] eqn:Hg.
  { rewrite (search_body_get_raises env driver keyword shop_name max_scrolls
               w e Hg) in Hr. cbn in Hr. congruence. }
  rewrite search_body_loads in Hr by exact Hg. fold p in Hr.
  destruct (frame_wait_raises p) as [e|].
  { destruct (is_TimeoutException e); cbn in Hr; congruence. }
  destruct (container_wait_raises p) as [e|].
  { destruct (is_TimeoutException e); cbn in Hr; congruence. }
  cbv zeta in Hr. cbn [res final emitted] in Hr.
  destruct (res (while_loop (Z.to_nat max_scrolls) driver shop_name
                   max_scrolls 0 0 (landed env w keyword))) as [v|e] eqn:Hw;
    cbn in Hr; [|congruence].
  injection Hr as ->.
  destruct (while_loop_sound _ _ _ _ _ _ _ _ Hw Hne)
    as (k & es & j & Hk & Hq & Hs & Hm & Hv).
  cbn [landed page scrolls] in Hq, Hs, Hv. fold p in Hq, Hs, Hv.
  exists k, es, j. repeat split; try assumption; lia.
Qed.

End Outcome.

(** ** Events of a resolution *)

Lemma count_app (f : event -> bool) (a b : list event) :
  count f (a ++ b) = (count f a + count f b)%nat.
Proof. unfold count. rewrite filter_app, length_app. reflexivity. Qed.

Lemma fractions_app (a b : list event) :
  fractions (a ++ b) = fractions a ++ fractions b.
Proof.
  induction a as [|e a IH]; [reflexivity|].
  destruct e; simpl; rewrite ?IH; reflexivity.
Qed.

Lemma resolution_events_quiet (evs : list event) :
  forallb resolution_event evs = true ->
  count is_quit evs = O /\ fractions evs = [] /\
  forallb (fun e => negb (is_quit e)) evs = true.
Proof.
  induction evs as [|e evs IH]; [intros _; repeat split|].
  simpl. rewrite andb_true_iff. intros [He Hr].
  destruct (IH Hr) as (IH1 & IH2 & IH3).
  unfold count in *. destruct e; try discriminate; simpl; auto.
Qed.

Lemma while_loop_events (fuel : nat) (driver : WebDriver) (shop_name : pystr)
    (max_scrolls : Z) :
  forall (scroll_count rank : Z) (w : World),
  forallb resolution_event
    (emitted (while_loop fuel driver shop_name max_scrolls scroll_count rank w))
  = true.
Proof.
  induction fuel as [|fuel IH]; intros c rank w; [reflexivity|].
  destruct (Z_lt_le_dec c max_scrolls) as [Hc|Hc];
    [|rewrite while_loop_done by lia; reflexivity].
  destruct (source (page w) (scrolls w)) as [e|es] eqn:Hs.
  { rewrite (while_loop_parse_raises _ _ _ _ _ _ _ e) by assumption.
    reflexivity. }
  destruct (find_match shop_name es) as [j|] eqn:Hm.
  { rewrite (while_loop_match _ _ _ _ _ _ _ es j) by assumption.
    reflexivity. }
  destruct (scroll_raises (page w) (scrolls w)) as [e|] eqn:Hq.
  { rewrite (while_loop_scroll_raises _ _ _ _ _ _ _ es e) by assumption.
    reflexivity. }
  rewrite (while_loop_quiet _ _ _ _ _ _ _ es) by assumption.
  cbv zeta. cbn [emitted cycle_events app forallb resolution_event andb].
  apply IH.
Qed.

(** The loop leaves the navigation and progress counters alone. *)
Lemma while_loop_world (fuel : nat) (driver : WebDriver) (shop_name : pystr)
    (max_scrolls : Z) :
  forall (scroll_count rank : Z) (w : World),
  let r := while_loop fuel driver shop_name max_scrolls scroll_count rank w in
  navs (final r) = navs w /\ progress_calls (final r) = progress_calls w.
Proof.
  induction fuel as [|fuel IH]; intros c rank w; [split; reflexivity|].
  cbv zeta.
  destruct (Z_lt_le_dec c max_scrolls) as [Hc|Hc];
    [|rewrite while_loop_done by lia; split; reflexivity].
  destruct (source (page w) (scrolls w)) as [e|es] eqn:Hs.
  { rewrite (while_loop_parse_raises _ _ _ _ _ _ _ e) by assumption.
    split; reflexivity. }
  destruct (find_match shop_name es) as [j|] eqn:Hm.
  { rewrite (while_loop_match _ _ _ _ _ _ _ es j) by assumption.
    split; reflexivity. }
  destruct (scroll_raises (page w) (scrolls w)) as [e|] eqn:Hq.
  { rewrite (while_loop_scroll_raises _ _ _ _ _ _ _ es e) by assumption.
    split; reflexivity. }
  rewrite (while_loop_quiet _ _ _ _ _ _ _ es) by assumption.
  cbv zeta. cbn [final]. apply (IH (c + 1) _ (scrolled w)).
Qed.

Section ResolutionEvents.

Variable env : Env.
Variables (driver : WebDriver) (keyword shop_name : pystr) (max_scrolls : Z).
Variable w : World.

(** The events of a resolution, by how far it gets. *)
Lemma search_single_business_events :
  let s := search_single_business env driver keyword shop_name max_scrolls w in
  forallb resolution_event (emitted s) = true /\
  (count is_page_source (emitted s) <= Z.to_nat max_scrolls)%nat /\
  navs (final s) = S (navs w) /\
  progress_calls (final s) = progress_calls w.
Proof.
  cbv zeta. rewrite search_single_business_run. cbv zeta.
  destruct (get_raises (landing env w keyword)) as [e|] eqn:Hg.
  { rewrite (search_body_get_raises env driver keyword shop_name max_scrolls
               w e Hg). cbn. repeat split. lia. }
  rewrite search_body_loads by exact Hg.
  destruct (frame_wait_raises (landing env w keyword)) as [e|].
  { destruct (is_TimeoutException e); cbn; repeat split; lia. }
  destruct (container_wait_raises (landing env w keyword)) as [e|].
  { destruct (is_TimeoutException e); cbn; repeat split; lia. }
  cbv zeta. cbn [res final emitted].
  pose proof (while_loop_events (Z.to_nat max_scrolls) driver shop_name
                max_scrolls 0 0 (landed env w keyword)) as Hev.
  pose proof (while_loop_reads driver shop_name max_scrolls
                (Z.to_nat max_scrolls) 0 0 (landed env w keyword)) as Hrd.
  pose proof (while_loop_world (Z.to_nat max_scrolls) driver shop_name
                max_scrolls 0 0 (landed env w keyword)) as Hw.
  cbn [landed navs progress_calls] in Hw.
  destruct (res (while_loop (Z.to_nat max_scrolls) driver shop_name
                   max_scrolls 0 0 (landed env w keyword))) as [v|e];
    cbn [res final emitted].
  - rewrite forallb_app, count_app, Hev. cbn. repeat split; try lia; apply Hw.
  - rewrite !forallb_app, !count_app, Hev. cbn. repeat split; try lia; apply Hw.
Qed.

End ResolutionEvents.

(** ** The pair loop *)

Section Batch.

Variable env : Env.
Variable driver : WebDriver.
Variable progress_bar : option ProgressBar.
Variable total : Z.

Lemma report_run (i : Z) (w : World) :
  report env progress_bar i total w =
  match progress_bar with
  | None => mkRun (inl tt) w []
  | Some bar =>
      if total =? 0 then
        mkRun (inr (OtherException (of_string "ZeroDivisionError")
                                   (of_string "division by zero"))) w []
      else
        match progress_raises env (progress_calls w) with
        | Some e => mkRun (inr e) (progress_called w) []
        | None =>
            mkRun (inl tt) (progress_called w)
                  [EProgress (quotient i total) (TextSearching (i + 1) total)]
        end
  end.
Proof.
  unfold report. destruct progress_bar as [bar|]; [|reflexivity].
  unfold truediv, bind, progress, quotient.
  destruct (total =? 0); [reflexivity|]. cbn [ret res final emitted].
  destruct (progress_raises env (progress_calls w)); reflexivity.
Qed.

Lemma for_pairs_cons_run (i : Z) (keyword shop_name : pystr)
    (rest : list (pystr * pystr)) (results : list Row) (w : World) :
  for_pairs env driver progress_bar total i ((keyword, shop_name) :: rest)
            results w =
  let r0 := report env progress_bar i total w in
  match res r0 with
  | inr e => mkRun (inr e) (final r0) (emitted r0)
  | inl _ =>
      let r1 := search_single_business env driver keyword shop_name
                  default_max_scrolls (final r0) in
      match res r1 with
      | inr e => mkRun (inr e) (final r1) (emitted r0 ++ emitted r1)
      | inl rank =>
          let r2 := for_pairs env driver progress_bar total (i + 1) rest
                      (results ++ [row_of keyword shop_name rank])
                      (final r1) in
          mkRun (res r2) (final r2)
                (emitted r0 ++ emitted r1 ++ ESleep 1 :: emitted r2)
      end
  end.
Proof.
  cbn [for_pairs]. fold (report env progress_bar i total). cbv zeta.
  destruct (report env progress_bar i total w) as [[u|e] w0 ev0] eqn:E0;
    cbn [res final emitted];
    [|erewrite bind_raise by exact E0; reflexivity].
  erewrite bind_ok by exact E0.
  destruct (search_single_business env driver keyword shop_name
              default_max_scrolls w0) as [[rank|e] w1 ev1] eqn:E1;
    cbn [res final emitted].
  - erewrite bind_ok by exact E1.
    erewrite bind_ok by apply time_sleep_run.
    cbn [res final emitted app]. reflexivity.
  - erewrite bind_raise by exact E1. reflexivity.
Qed.

(** The world a report leaves has the same navigation counter. *)
Lemma report_world (i : Z) (w : World) :
  navs (final (report env progress_bar i total w)) = navs w.
Proof.
  rewrite report_run. destruct progress_bar; [|reflexivity].
  destruct (total =? 0); [reflexivity|].
  destruct (progress_raises env (progress_calls w)); reflexivity.
Qed.

(** The loop never disposes of or sets up a session. *)
Lemma for_pairs_no_quit (pairs : list (pystr * pystr)) :
  forall (i : Z) (results : list Row) (w : World),
  count is_quit
    (emitted (for_pairs env driver progress_bar total i pairs results w)) = O.
Proof.
  induction pairs as [|[keyword shop_name] rest IH]; intros i results w;
    [reflexivity|].
  rewrite for_pairs_cons_run. cbv zeta.
  assert (H0 : count is_quit (emitted (report env progress_bar i total w)) = O).
  { rewrite report_run. destruct progress_bar; [|reflexivity].
    destruct (total =? 0); [reflexivity|].
    destruct (progress_raises env (progress_calls w)); reflexivity. }
  destruct (res (report env progress_bar i total w)); [|exact H0].
  destruct (search_single_business_events env driver keyword shop_name
              default_max_scrolls (final (report env progress_bar i total w)))
    as (Hev & _). cbv zeta in Hev.
  apply resolution_events_quiet in Hev. destruct Hev as (Hq & _ & _).
  destruct (res (search_single_business env driver keyword shop_name
                   default_max_scrolls
                   (final (report env progress_bar i total w)))) as [rank|e];
    cbn [emitted]; rewrite !count_app, ?H0, ?Hq; [|reflexivity].
  change (ESleep 1 :: ?l) with ([ESleep 1] ++ l). rewrite count_app, IH.
  reflexivity.
Qed.

(** Every pass reads the page at most [default_max_scrolls] times. *)
Lemma for_pairs_reads (pairs : list (pystr * pystr)) :
  forall (i : Z) (results : list Row) (w : World),
  (count is_page_source
     (emitted (for_pairs env driver progress_bar total i pairs results w))
   <= Z.to_nat default_max_scrolls * length pairs)%nat.
Proof.
  induction pairs as [|[keyword shop_name] rest IH]; intros i results w;
    [cbn; lia|].
  rewrite for_pairs_cons_run. cbv zeta.
  assert (H0 : count is_page_source
                 (emitted (report env progress_bar i total w)) = O).
  { rewrite report_run. destruct progress_bar; [|reflexivity].
    destruct (total =? 0); [reflexivity|].
    destruct (progress_raises env (progress_calls w)); reflexivity. }
  destruct (res (report env progress_bar i total w));
    [|cbn [emitted]; rewrite H0; lia].
  destruct (search_single_business_events env driver keyword shop_name
              default_max_scrolls (final (report env progress_bar i total w)))
    as (_ & Hrd & _). cbv zeta in Hrd.
  destruct (res (search_single_business env driver keyword shop_name
                   default_max_scrolls
                   (final (report env progress_bar i total w)))) as [rank|e];
    cbn [emitted]; rewrite !count_app, ?H0; cbn [length]; [|lia].
  change (ESleep 1 :: ?l) with ([ESleep 1] ++ l). rewrite count_app.
  specialize (IH (i + 1) (results ++ [row_of keyword shop_name rank])
                (final (search_single_business env driver keyword shop_name
                          default_max_scrolls
                          (final (report env progress_bar i total w))))).
  change (count is_page_source [ESleep 1]) with O. lia.
Qed.

End Batch.

(** ** A resolution depends on the landing page only *)

Lemma while_loop_page_only (fuel : nat) (driver : WebDriver)
    (shop_name : pystr) (max_scrolls : Z) :
  forall (scroll_count rank : Z) (w w' : World),
  page w = page w' -> scrolls w = scrolls w' ->
  res (while_loop fuel driver shop_name max_scrolls scroll_count rank w) =
  res (while_loop fuel driver shop_name max_scrolls scroll_count rank w').
Proof.
  induction fuel as [|fuel IH]; intros c rank w w' Hp Hs; [reflexivity|].
  destruct (Z_lt_le_dec c max_scrolls) as [Hc|Hc];
    [|rewrite !while_loop_done by lia; reflexivity].
  destruct (source (page w) (scrolls w)) as [e|es] eqn:Hsrc.
  { rewrite !(while_loop_parse_raises _ _ _ _ _ _ _ e);
      try assumption; try reflexivity. rewrite <- Hp, <- Hs. exact Hsrc. }
  destruct (find_match shop_name es) as [j|] eqn:Hm.
  { rewrite !(while_loop_match _ _ _ _ _ _ _ es j);
      try assumption; try reflexivity. rewrite <- Hp, <- Hs. exact Hsrc. }
  destruct (scroll_raises (page w) (scrolls w)) as [e|] eqn:Hq.
  { rewrite !(while_loop_scroll_raises _ _ _ _ _ _ _ es e);
      try assumption; try reflexivity; rewrite <- Hp, <- Hs; assumption. }
  rewrite !(while_loop_quiet _ _ _ _ _ _ _ es);
    try assumption; try (rewrite <- Hp, <- Hs; assumption).
  cbv zeta. cbn [res]. apply IH; cbn [scrolled page scrolls]; congruence.
Qed.

Lemma search_single_business_rank_on (env : Env) (driver : WebDriver)
    (keyword shop_name : pystr) (max_scrolls : Z) (w : World) :
  res (search_single_business env driver keyword shop_name max_scrolls w) =
  inl (rank_on (landing env w keyword) shop_name max_scrolls).
Proof.
  unfold rank_on. rewrite !search_single_business_run. cbv zeta.
  set (p := landing env w keyword).
  assert (Hp : landing (env_of (fun _ _ => p)) initial_world [] = p)
    by reflexivity.
  destruct (get_raises p) as [e|] eqn:Hg.
  { rewrite (search_body_get_raises env driver keyword shop_name max_scrolls
               w e Hg).
    rewrite (search_body_get_raises (env_of (fun _ _ => p)) ChromeSession []
               shop_name max_scrolls initial_world e);
      [reflexivity | rewrite Hp; exact Hg]. }
  rewrite !search_body_loads by (rewrite ?Hp; exact Hg).
  rewrite Hp. fold p.
  destruct (frame_wait_raises p) as [e|].
  { destruct (is_TimeoutException e); reflexivity. }
  destruct (container_wait_raises p) as [e|].
  { destruct (is_TimeoutException e); reflexivity. }
  cbv zeta. cbn [res final emitted].
  rewrite (while_loop_page_only (Z.to_nat max_scrolls) ChromeSession shop_name
             max_scrolls 0 0
             (landed (env_of (fun _ _ => p)) initial_world [])
             (landed env w keyword)) by reflexivity.
  destruct driver.
  destruct (res (while_loop (Z.to_nat max_scrolls) ChromeSession shop_name
                   max_scrolls 0 0 (landed env w keyword))); reflexivity.
Qed.

(** ** Rows and fractions of the pair loop *)

Lemma quotient_lt_1 (i total : Z) : 0 <= i < total -> (quotient i total < 1)%Q.
Proof.
  intros H. unfold quotient. assert (Ht : (0 <? total) = true) by (apply Z.ltb_lt; lia).
  rewrite Ht. unfold Qlt. cbn [Qnum Qden]. rewrite Z2Pos.id by lia. lia.
Qed.

Lemma quotient_le (i j total : Z) :
  0 < total -> i <= j -> (quotient i total <= quotient j total)%Q.
Proof.
  intros Ht H. unfold quotient. apply Z.ltb_lt in Ht. rewrite Ht.
  unfold Qle. cbn [Qnum Qden]. apply Z.mul_le_mono_nonneg_r; lia.
Qed.

Lemma Qeq_bool_lt_1 (q : Q) : (q < 1)%Q -> Qeq_bool q 1 = false.
Proof.
  intros H. destruct (Qeq_bool q 1) eqn:E; [|reflexivity].
  apply Qeq_bool_iff in E. rewrite E in H. exfalso. revert H. apply Qlt_irrefl.
Qed.

Lemma pass_fractions_below (total : Z) (m : nat) :
  forall i, 0 <= i -> i + Z.of_nat m <= total ->
  Forall (fun q => (quotient i total <= q)%Q /\ (q < 1)%Q)
         (pass_fractions total i m).
Proof.
  induction m as [|m IH]; intros i Hi Hm; [constructor|].
  cbn [pass_fractions]. constructor.
  - split; [apply Qle_refl | apply quotient_lt_1; lia].
  - specialize (IH (i + 1) ltac:(lia) ltac:(lia)).
    eapply Forall_impl; [|exact IH]. cbv beta. intros q [H1 H2]. split; [|exact H2].
    eapply Qle_trans; [|exact H1]. apply quotient_le; lia.
Qed.

Lemma pass_fractions_ones (total i : Z) (m : nat) :
  0 <= i -> i + Z.of_nat m <= total ->
  ones (pass_fractions total i m) = O.
Proof.
  intros Hi Hm. pose proof (pass_fractions_below total m i Hi Hm) as H.
  unfold ones. induction H as [|q l [_ Hq] _ IH]; [reflexivity|].
  cbn [filter]. rewrite (Qeq_bool_lt_1 q Hq). exact IH.
Qed.

(** The pass fractions, alone or followed by the closing 1, never decrease. *)
Lemma pass_fractions_sorted (total : Z) (m : nat) (tail : list Q) :
  forall i, 0 <= i -> i + Z.of_nat m <= total ->
  tail = [] \/ tail = [1%Q] ->
  Sorted Qle (pass_fractions total i m ++ tail).
Proof.
  induction m as [|m IH]; intros i Hi Hm Ht.
  - cbn. destruct Ht as [-> | ->]; repeat constructor.
  - cbn [pass_fractions app]. constructor; [apply IH; auto; lia|].
    destruct m as [|m'].
    + cbn. destruct Ht as [-> | ->]; constructor.
      apply Qlt_le_weak, quotient_lt_1. lia.
    + cbn [pass_fractions app]. constructor. apply quotient_le; lia.
Qed.

Section BatchRows.

Variable env : Env.
Variable driver : WebDriver.
Variable total : Z.

(** Without a progress bar nothing is reported. *)
Lemma for_pairs_silent (pairs : list (pystr * pystr)) :
  forall (i : Z) (results : list Row) (w : World),
  fractions (emitted (for_pairs env driver None total i pairs results w)) = [].
Proof.
  induction pairs as [|[keyword shop_name] rest IH]; intros i results w;
    [reflexivity|].
  rewrite for_pairs_cons_run. cbv zeta. rewrite report_run.
  cbn [res final emitted app].
  destruct (search_single_business_events env driver keyword shop_name
              default_max_scrolls w) as (Hev & _). cbv zeta in Hev.
  apply resolution_events_quiet in Hev. destruct Hev as (_ & Hfr & _).
  destruct (res (search_single_business env driver keyword shop_name
                   default_max_scrolls w)) as [rank|e]; cbn [emitted];
    [|exact Hfr].
  rewrite fractions_app, Hfr. cbn [app fractions]. apply IH.
Qed.

(** Whatever fails, the reports of the loop are the fractions of its first
    passes, in order; all of them when the loop runs to its end. *)
Lemma for_pairs_fractions (bar : ProgressBar) (pairs : list (pystr * pystr)) :
  forall (i : Z) (results : list Row) (w : World),
  0 <= i -> i + Z.of_nat (length pairs) <= total ->
  let r := for_pairs env driver (Some bar) total i pairs results w in
  exists m, (m <= length pairs)%nat /\
    fractions (emitted r) = pass_fractions total i m /\
    (forall rows, res r = inl rows -> m = length pairs).
Proof.
  induction pairs as [|[keyword shop_name] rest IH]; intros i results w Hi Hn.
  - exists O. repeat split; [lia].
  - cbn [length] in Hn. cbv zeta. rewrite for_pairs_cons_run. cbv zeta.
    rewrite report_run.
    assert (Ht : (total =? 0) = false) by (apply Z.eqb_neq; lia). rewrite Ht.
    destruct (progress_raises env (progress_calls w)) as [e|];
      cbn [res final emitted].
    { exists O. repeat split; [lia | discriminate]. }
    destruct (search_single_business_events env driver keyword shop_name
                default_max_scrolls (progress_called w)) as (Hev & _).
    cbv zeta in Hev.
    apply resolution_events_quiet in Hev. destruct Hev as (_ & Hfr & _).
    destruct (res (search_single_business env driver keyword shop_name
                     default_max_scrolls (progress_called w))) as [rank|e].
    + destruct (IH (i + 1) (results ++ [row_of keyword shop_name rank])
                  (final (search_single_business env driver keyword shop_name
                            default_max_scrolls (progress_called w))))
        as (m & Hm & Hf & Hall); [lia | lia |].
      exists (S m). cbn [length res emitted]. repeat split; [lia | |].
      * cbn [app fractions]. rewrite fractions_app, Hfr.
        cbn [app fractions pass_fractions]. rewrite Hf. reflexivity.
      * intros rows Hrows. f_equal. exact (Hall rows Hrows).
    + exists 1%nat. cbn [length res emitted]. repeat split; [lia | | discriminate].
      cbn [app fractions]. rewrite Hfr. reflexivity.
Qed.

(** When no report raises, the loop appends one row per pair, in order,
    each holding the rank found on the page its navigation lands on. *)
Lemma for_pairs_rows (progress_bar : option ProgressBar)
    (pairs : list (pystr * pystr)) :
  (forall n, progress_raises env n = None) ->
  forall (i : Z) (results : list Row) (w : World),
  0 <= i -> i + Z.of_nat (length pairs) <= total ->
  res (for_pairs env driver progress_bar total i pairs results w) =
  inl (results ++ rows_from env default_max_scrolls (navs w) pairs).
Proof.
  intros Hpr.
  induction pairs as [|[keyword shop_name] rest IH]; intros i results w Hi Hn.
  - cbn. rewrite app_nil_r. reflexivity.
  - cbn [length] in Hn. rewrite for_pairs_cons_run. cbv zeta.
    pose proof (report_world env progress_bar total i w) as Hnav.
    assert (H0 : res (report env progress_bar i total w) = inl tt).
    { rewrite report_run. destruct progress_bar; [|reflexivity].
      assert (Ht : (total =? 0) = false) by (apply Z.eqb_neq; lia).
      rewrite Ht, Hpr. reflexivity. }
    rewrite H0.
    rewrite search_single_business_rank_on. cbn [res].
    destruct (search_single_business_events env driver keyword shop_name
                default_max_scrolls (final (report env progress_bar i total w)))
      as (_ & _ & Hnav' & _). cbv zeta in Hnav'.
    rewrite IH by lia. rewrite Hnav', Hnav. unfold landing. rewrite Hnav.
    cbn [rows_from]. rewrite <- app_assoc. reflexivity.
Qed.

End BatchRows.

Lemma rows_from_pairs (env : Env) (budget : Z) (pairs : list (pystr * pystr)) :
  forall n, map row_pair (rows_from env budget n pairs) = pairs.
Proof.
  induction pairs as [|[keyword shop_name] rest IH]; intros n; [reflexivity|].
  cbn [rows_from map]. rewrite IH. reflexivity.
Qed.

(** ** The batch as a whole *)

Section BatchRun.

Variable env : Env.
Variables (keywords shop_names : list pystr).
Variable progress_bar : option ProgressBar.
Variable w : World.

Lemma cleanup_run (driver : WebDriver) (w1 : World) :
  cleanup env driver progress_bar w1 =
  match quit_raises env with
  | Some e => mkRun (inr e) w1 [EQuit]
  | None =>
      match progress_bar with
      | None => mkRun (inl tt) w1 [EQuit]
      | Some bar =>
          match progress_raises env (progress_calls w1) with
          | Some e => mkRun (inr e) (progress_called w1) [EQuit]
          | None =>
              mkRun (inl tt) (progress_called w1) [EQuit; EProgress 1 TextDone]
          end
      end
  end.
Proof.
  unfold cleanup, driver_quit, bind, emit, raise_if, progress.
  cbn [res final emitted].
  destruct (quit_raises env); [reflexivity|]. cbn [ret res final emitted].
  destruct progress_bar; [|reflexivity].
  destruct (progress_raises env (progress_calls w1)); reflexivity.
Qed.

Lemma setup_driver_run :
  setup_driver env w =
  if driver_cached w then mkRun (inl ChromeSession) w []
  else
    match setup_raises env with
    | Some e => mkRun (inr e) w [ESetupDriver]
    | None => mkRun (inl ChromeSession) (acquired w) [ESetupDriver]
    end.
Proof.
  unfold setup_driver, acquired. destruct (driver_cached w); reflexivity.
Qed.

Lemma search_multiple_businesses_after (w0 : World) (evs : list event) :
  setup_driver env w = mkRun (inl ChromeSession) w0 evs ->
  search_multiple_businesses env keywords shop_names progress_bar w =
  let b := for_pairs env ChromeSession progress_bar
             (Z.of_nat (length keywords)) 0
             (combine keywords shop_names) [] w0 in
  let c := cleanup env ChromeSession progress_bar (final b) in
  mkRun (match res c with inl _ => res b | inr e => inr e end)
        (final c) (evs ++ emitted b ++ emitted c).
Proof.
  intros Hs.
  change (search_multiple_businesses env keywords shop_names progress_bar w)
    with ((driver <- setup_driver env ;;
           results <- try_finally
                        (for_pairs env driver progress_bar
                           (Z.of_nat (length keywords)) 0
                           (combine keywords shop_names) [])
                        (cleanup env driver progress_bar) ;;
           ret results) w).
  erewrite bind_ok by exact Hs. cbv zeta.
  unfold bind, try_finally.
  destruct (for_pairs env ChromeSession progress_bar
              (Z.of_nat (length keywords)) 0 (combine keywords shop_names) [] w0)
    as [rb wb evb]. cbn [res final emitted].
  destruct (cleanup env ChromeSession progress_bar wb) as [[u|e] wc evc];
    cbn [res final emitted]; [|reflexivity].
  destruct rb; cbn [res final emitted ret app]; rewrite ?app_nil_r; reflexivity.
Qed.

(** With a session, the batch is the pair loop followed by the cleanup. *)
Lemma search_multiple_businesses_acquired :
  acquires env w ->
  search_multiple_businesses env keywords shop_names progress_bar w =
  let b := for_pairs env ChromeSession progress_bar
             (Z.of_nat (length keywords)) 0
             (combine keywords shop_names) [] (acquired w) in
  let c := cleanup env ChromeSession progress_bar (final b) in
  mkRun (match res c with inl _ => res b | inr e => inr e end)
        (final c) (setup_events w ++ emitted b ++ emitted c).
Proof.
  intros Ha. apply search_multiple_businesses_after.
  rewrite setup_driver_run. unfold acquired, setup_events.
  destruct (driver_cached w) eqn:Hc; [reflexivity|].
  destruct Ha as [Ha | ->]; [congruence | reflexivity].
Qed.

(** Without one, it raises before the [try] is entered. *)
Lemma search_multiple_businesses_no_session (e : exn) :
  driver_cached w = false -> setup_raises env = Some e ->
  search_multiple_businesses env keywords shop_names progress_bar w =
  mkRun (inr e) w [ESetupDriver].
Proof.
  intros Hc He.
  change (search_multiple_businesses env keywords shop_names progress_bar w)
    with ((driver <- setup_driver env ;;
           results <- try_finally
                        (for_pairs env driver progress_bar
                           (Z.of_nat (length keywords)) 0
                           (combine keywords shop_names) [])
                        (cleanup env driver progress_bar) ;;
           ret results) w).
  erewrite bind_raise; [reflexivity|].
  rewrite setup_driver_run, Hc, He. reflexivity.
Qed.

Lemma acquired_navs : navs (acquired w) = navs w.
Proof. unfold acquired. destruct (driver_cached w); reflexivity. Qed.

Lemma combine_within :
  0 + Z.of_nat (length (combine keywords shop_names))
  <= Z.of_nat (length keywords).
Proof. rewrite length_combine. lia. Qed.

(** When nothing outside the pages fails, the batch returns the rows of
    its pairs. *)
Lemma batch_rows :
  acquires env w -> quit_raises env = None ->
  (forall n, progress_raises env n = None) ->
  res (search_multiple_businesses env keywords shop_names progress_bar w) =
  inl (rows_from env default_max_scrolls (navs w)
         (combine keywords shop_names)).
Proof.
  intros Ha Hq Hpr.
  rewrite search_multiple_businesses_acquired by exact Ha.
  cbv zeta. cbn [res]. rewrite cleanup_run, Hq.
  rewrite for_pairs_rows by (try assumption; try lia; apply combine_within).
  rewrite acquired_navs.
  destruct progress_bar; [rewrite Hpr|]; reflexivity.
Qed.

End BatchRun.

(** ** Scenarios *)

Example three_organic_entries :
  res (search_single_business
         (env_of (fun _ _ => page_of (static_feed
                    [organic "A"; organic "B"; organic "C"])))
         ChromeSession (of_string "q") (of_string "B") 50 initial_world)
  = inl 2.
Proof. vm_compute. reflexivity. Qed.

Example sponsored_entry_first :
  res (search_single_business
         (env_of (fun _ _ => page_of (static_feed
                    [sponsored "Ad"; organic "A"; organic "B"])))
         ChromeSession (of_string "q") (of_string "A") 50 initial_world)
  = inl 2.
Proof. vm_compute. reflexivity. Qed.

Example name_is_trimmed :
  res (search_single_business
         (env_of (fun _ _ => page_of (static_feed
                    [organic "A"; mkTag false (Some (32 :: of_string "B" ++ [160; 10]))%N])))
         ChromeSession (of_string "q") (of_string "B") 50 initial_world)
  = inl 2.
Proof. vm_compute. reflexivity. Qed.

Example failed_then_found :
  res (search_multiple_businesses flaky_env
         [of_string "q"; of_string "r"] [of_string "A"; of_string "D"]
         None initial_world)
  = inl [mkRow (of_string "q") (of_string "A") RankNotFound false;
         mkRow (of_string "r") (of_string "D") (RankInt 4) true].
Proof. vm_compute. reflexivity. Qed.

(** A second batch in the same process is handed the cached session: the
    browser is launched once and [driver.quit()] is called in both runs. *)
Example second_batch_reuses_session :
  let run := search_multiple_businesses two_entry_env [of_string "q"]
               [of_string "B"] None in
  let r1 := run initial_world in
  let r2 := run (final r1) in
  count is_setup (emitted r1 ++ emitted r2) = 1%nat /\
  count is_quit (emitted r1) = 1%nat /\
  count is_quit (emitted r2) = 1%nat.
Proof. vm_compute. repeat split. Qed.

(** * The claims *)

(** ** Ranks *)

(** A target found in the first snapshot is reported at its position. *)
Lemma first_snapshot_rank (env : Env) (driver : WebDriver)
    (keyword shop_name : pystr) (max_scrolls : Z) (w : World)
    (es : list Tag) (j : nat) :
  loads (landing env w keyword) -> 0 < max_scrolls ->
  source (landing env w keyword) 0 = inr es ->
  find_match shop_name es = Some j ->
  res (search_single_business env driver keyword shop_name max_scrolls w) =
  inl (Z.of_nat j + 1).
Proof.
  intros Hl Hm Hs Hf.
  rewrite (search_single_business_found env driver keyword shop_name
             max_scrolls w O es j); try assumption; try reflexivity.
  intros i Hi. lia.
Qed.

(** C1, the code at the failing input.  The feed shows [A] at first and
    [A; B] after one scroll, so [B] is the second entry in document order
    (index 1) and the first match; the resolution returns 3, not 2: the
    first pass left [rank = 1] and the second pass counts on from there. *)
Theorem search_single_business_rank_accumulates :
  find_match (of_string "B") (growing_feed 1) = Some 1%nat /\
  res (search_single_business growing_env ChromeSession (of_string "q")
         (of_string "B") 50 initial_world) = inl 3.
Proof. split; vm_compute; reflexivity. Qed.

(** C2, the code at the failing input.  On a static feed of two entries
    the first pass is entered with [rank = 0] and gives entry [A] (index 0)
    the ordinal 1; it finds nothing and hands [rank = 2] to the second
    pass, which walks the same list and gives the same entry the ordinal 3. *)
Theorem ordinal_shifts_between_cycles :
  let w0 := landed two_entry_env initial_world (of_string "q") in
  let target := of_string "Z" in
  source (page w0) 0 = inr two_entries /\
  source (page w0) 1 = inr two_entries /\
  rank_at two_entries 0 0 = Some 1 /\
  while_loop 2 ChromeSession target 2 0 0 w0 =
    (let r := while_loop 1 ChromeSession target 2 1 2 (scrolled w0) in
     mkRun (res r) (final r) (cycle_events ++ emitted r)) /\
  rank_at two_entries 2 0 = Some 3.
Proof.
  cbv zeta. repeat (split; [reflexivity|]). reflexivity.
Qed.

(** The entry behind a rank other than [-1] is not sponsored and its
    trimmed name is the target; the value returned counts every entry
    before it in its snapshot, sponsored ones included, on top of the
    entries walked in earlier passes. *)
Lemma sponsored_counted_never_matched (env : Env) (driver : WebDriver)
    (keyword shop_name : pystr) (max_scrolls : Z) (w : World) (r : Z) :
  res (search_single_business env driver keyword shop_name max_scrolls w) =
  inl r ->
  r <> -1 ->
  exists (k : nat) (es : list Tag) (j : nat) (e : Tag),
    source (landing env w keyword) k = inr es /\
    nth_error es j = Some e /\
    ad_element e = false /\
    option_map strip (shop_name_element e) = Some shop_name /\
    r = offset (landing env w keyword) 0 k
        + Z.of_nat (count_sponsored (firstn j es))
        + Z.of_nat (count_organic (firstn j es)) + 1.
Proof.
  intros Hr Hne.
  destruct (search_single_business_sound env driver keyword shop_name
              max_scrolls w r Hr Hne) as (k & es & j & _ & _ & Hs & Hm & Hv).
  destruct (find_match_Some _ _ _ Hm) as (e & Hn & He & _).
  apply matches_true in He. destruct He as [Had Hname].
  exists k, es, j, e. repeat split; try assumption.
  pose proof (count_sponsored_organic (firstn j es)) as Hc.
  assert (Hj : (j < length es)%nat)
    by (apply nth_error_Some; rewrite Hn; discriminate).
  rewrite length_firstn in Hc. lia.
Qed.

(** C3, the code at the failing input.  The feed shows [Ad; A] at first
    and [Ad; A; B] after one scroll, [Ad] being sponsored.  The first match
    for [B] is the entry at index 2 of the second snapshot, with one
    sponsored entry before it: its ordinal, counting that sponsored entry,
    is 3.  The resolution returns 5: the first pass left [rank = 2] and the
    second pass counts on from there.  In the first snapshot the same
    counting is right: [A] behind the sponsored entry is returned as 2, and
    a target carried by the sponsored entry alone is not found. *)
Theorem sponsored_ordinal_inflated_after_scroll :
  find_match (of_string "B") (ad_growing_feed 1) = Some 2%nat /\
  count_sponsored (firstn 2 (ad_growing_feed 1)) = 1%nat /\
  res (search_single_business ad_growing_env ChromeSession (of_string "q")
         (of_string "B") 50 initial_world) = inl 5 /\
  res (search_single_business ad_growing_env ChromeSession (of_string "q")
         (of_string "A") 50 initial_world) = inl 2 /\
  res (search_single_business ad_growing_env ChromeSession (of_string "q")
         (of_string "Ad") 50 initial_world) = inl (-1).
Proof. repeat (split; [vm_compute; reflexivity|]). vm_compute. reflexivity. Qed.

(** C4.  When the page loads and none of the snapshots the budget allows
    holds a matching organic entry, the resolution makes exactly
    [max_scrolls] passes, each one read, one scroll and one pause, and
    returns [-1]; nothing asks whether the feed grew. *)
Theorem unmatched_feed_exhausts_budget (env : Env) (driver : WebDriver)
    (keyword shop_name : pystr) (max_scrolls : Z) (w : World) :
  loads (landing env w keyword) ->
  quiet (landing env w keyword) shop_name 0 (Z.to_nat max_scrolls) ->
  let s := search_single_business env driver keyword shop_name max_scrolls w in
  res s = inl (-1) /\
  emitted s = arrival_events keyword ++ cycles (Z.to_nat max_scrolls) /\
  count is_page_source (emitted s) = Z.to_nat max_scrolls /\
  count is_execute_script (emitted s) = Z.to_nat max_scrolls.
Proof.
  intros Hl Hq. cbv zeta.
  destruct (search_single_business_loaded env driver keyword shop_name
              max_scrolls w Hl) as [Hr He]. cbv zeta in Hr, He.
  destruct (while_loop_exhausts driver shop_name max_scrolls
              (Z.to_nat max_scrolls) (Z.to_nat max_scrolls) 0 0
              (landed env w keyword)) as [Hwr Hwe];
    [lia | f_equal; lia | exact Hq |].
  cbv zeta in Hwr, Hwe. rewrite Hwr in Hr, He. rewrite Hwe in He.
  rewrite app_nil_r in He. rewrite Hr, He.
  destruct (count_cycles (Z.to_nat max_scrolls)) as [H1 H2].
  rewrite !count_app, H1, H2. repeat split.
Qed.

Lemma unmatched_feed_exhausts_budget_witness :
  let s := search_single_business two_entry_env ChromeSession (of_string "q")
             (of_string "Z") 5 initial_world in
  res s = inl (-1) /\
  emitted s = arrival_events (of_string "q") ++ cycles (Z.to_nat 5) /\
  count is_page_source (emitted s) = Z.to_nat 5 /\
  count is_execute_script (emitted s) = Z.to_nat 5.
Proof.
  apply (unmatched_feed_exhausts_budget two_entry_env ChromeSession
           (of_string "q") (of_string "Z") 5 initial_world).
  - repeat split.
  - intros i _. exists two_entries. repeat split.
Defined.

(** ** Failures *)

(** C5.  When the page is reached but the wait for the frame or for the
    feed container (each bounded by 10) times out, the resolution returns
    [-1] at once: it reads no snapshot and scrolls nothing; and the pair
    loop records the pair as not found and goes on with the remaining
    pairs. *)
Theorem navigation_timeout_is_not_found (env : Env) (driver : WebDriver)
    (progress_bar : option ProgressBar) (total i : Z)
    (keyword shop_name : pystr) (rest : list (pystr * pystr))
    (results : list Row) (w : World) (msg : pystr) :
  (forall n, progress_raises env n = None) ->
  0 <= i -> i + Z.of_nat (length ((keyword, shop_name) :: rest)) <= total ->
  get_raises (landing env w keyword) = None ->
  frame_wait_raises (landing env w keyword) = Some (TimeoutException msg) \/
  (frame_wait_raises (landing env w keyword) = None /\
   container_wait_raises (landing env w keyword)
   = Some (TimeoutException msg)) ->
  (forall max_scrolls,
     let s := search_single_business env driver keyword shop_name
                max_scrolls w in
     res s = inl (-1) /\
     count is_page_source (emitted s) = O /\
     count is_execute_script (emitted s) = O /\
     (emitted s = [EGet (build_url keyword);
                   EStText (MsgConnecting (build_url keyword));
                   EWaitFrame 10; EStError MsgFrameTimeout] \/
      emitted s = arrival_events keyword ++ [EStError MsgLoadFailed])) /\
  res (for_pairs env driver progress_bar total i
         ((keyword, shop_name) :: rest) results w) =
  inl (results ++ mkRow keyword shop_name RankNotFound false
                  :: rows_from env default_max_scrolls (S (navs w)) rest).
Proof.
  intros Hpr Hi Hn Hg Hto.
  assert (Hsingle : forall max_scrolls,
    let s := search_single_business env driver keyword shop_name
               max_scrolls w in
    res s = inl (-1) /\
    count is_page_source (emitted s) = O /\
    count is_execute_script (emitted s) = O /\
    (emitted s = [EGet (build_url keyword);
                  EStText (MsgConnecting (build_url keyword));
                  EWaitFrame 10; EStError MsgFrameTimeout] \/
     emitted s = arrival_events keyword ++ [EStError MsgLoadFailed])).
  { intros max_scrolls. cbv zeta.
    rewrite search_single_business_run. cbv zeta.
    rewrite search_body_loads by exact Hg.
    destruct Hto as [Hf | [Hf Hc]]; rewrite Hf; [|rewrite Hc];
      cbn [is_TimeoutException res final emitted]; repeat split; auto. }
  split; [exact Hsingle|].
  rewrite for_pairs_rows by assumption. cbn [rows_from].
  destruct (Hsingle default_max_scrolls) as [Hr _]. cbv zeta in Hr.
  rewrite search_single_business_rank_on in Hr. injection Hr as Hr.
  unfold landing in Hr. rewrite Hr. reflexivity.
Qed.

Lemma navigation_timeout_is_not_found_witness :
  res (for_pairs flaky_env ChromeSession (Some StProgress) 2 0
         [(of_string "q", of_string "A"); (of_string "r", of_string "D")]
         [] initial_world) =
  inl [mkRow (of_string "q") (of_string "A") RankNotFound false;
       mkRow (of_string "r") (of_string "D") (RankInt 4) true].
Proof.
  refine (proj2 (navigation_timeout_is_not_found flaky_env ChromeSession
                   (Some StProgress) 2 0 (of_string "q") (of_string "A")
                   [(of_string "r", of_string "D")] [] initial_world
                   (of_string "timeout") _ _ _ _ _)).
  - intros n. reflexivity.
  - lia.
  - cbn. lia.
  - reflexivity.
  - right. split; reflexivity.
Defined.



(** ** The batch *)

(** C7.  When the session is acquired and neither its disposal nor a
    progress report raises, the batch returns one row per pair of
    [zip(keywords, shop_names)], in the order of the input; for lists of the
    same length that is one row per keyword. *)
Theorem batch_one_row_per_pair (env : Env) (keywords shop_names : list pystr)
    (progress_bar : option ProgressBar) (w : World) :
  acquires env w -> quit_raises env = None ->
  (forall n, progress_raises env n = None) ->
  exists rows,
    res (search_multiple_businesses env keywords shop_names progress_bar w) =
    inl rows /\
    map row_pair rows = combine keywords shop_names /\
    length rows = length (combine keywords shop_names) /\
    (length keywords = length shop_names -> length rows = length keywords).
Proof.
  intros Hs Hq Hpr.
  exists (rows_from env default_max_scrolls (navs w)
            (combine keywords shop_names)).
  assert (Hlen : length (rows_from env default_max_scrolls (navs w)
                           (combine keywords shop_names))
                 = length (combine keywords shop_names)).
  { rewrite <- (rows_from_pairs env default_max_scrolls
                  (combine keywords shop_names) (navs w)) at 2.
    rewrite length_map. reflexivity. }
  repeat split.
  - apply batch_rows; assumption.
  - apply rows_from_pairs.
  - exact Hlen.
  - intros Heq. rewrite Hlen, length_combine. lia.
Qed.

Lemma batch_one_row_per_pair_witness :
  exists rows,
    res (search_multiple_businesses flaky_env
           [of_string "q"; of_string "r"] [of_string "A"; of_string "D"]
           (Some StProgress) initial_world) = inl rows /\
    map row_pair rows =
      combine [of_string "q"; of_string "r"] [of_string "A"; of_string "D"] /\
    length rows =
      length (combine [of_string "q"; of_string "r"]
                      [of_string "A"; of_string "D"]) /\
    (length [of_string "q"; of_string "r"]
     = length [of_string "A"; of_string "D"] ->
     length rows = length [of_string "q"; of_string "r"]).
Proof.
  apply (batch_one_row_per_pair flaky_env);
    [right; reflexivity | reflexivity | reflexivity].
Defined.

Lemma ones_app (a b : list Q) : ones (a ++ b) = (ones a + ones b)%nat.
Proof. unfold ones. rewrite filter_app, length_app. reflexivity. Qed.

Lemma cleanup_events (env : Env) (driver : WebDriver)
    (progress_bar : option ProgressBar) (w : World) :
  exists post,
    emitted (cleanup env driver progress_bar w) = EQuit :: post /\
    forallb is_progress post = true /\
    count is_page_source post = O /\
    (fractions post = [] \/ fractions post = [1%Q]).
Proof.
  rewrite cleanup_run.
  destruct (quit_raises env); [exists []; repeat split; auto|].
  destruct progress_bar; [|exists []; repeat split; auto].
  destruct (progress_raises env (progress_calls w));
    [exists []; repeat split; auto|].
  exists [EProgress 1 TextDone]. repeat split; auto.
Qed.

Lemma setup_events_quiet (w : World) :
  fractions (setup_events w) = [] /\ count is_quit (setup_events w) = O /\
  count is_page_source (setup_events w) = O.
Proof. unfold setup_events. destruct (driver_cached w); repeat split. Qed.

(** Whatever fails, the fractions reported by a batch never decrease and 1
    is among them at most once. *)
Lemma batch_fractions_sorted (env : Env) (keywords shop_names : list pystr)
    (progress_bar : option ProgressBar) (w : World) :
  let r := search_multiple_businesses env keywords shop_names progress_bar w in
  Sorted Qle (fractions (emitted r)) /\ (ones (fractions (emitted r)) <= 1)%nat.
Proof.
  cbv zeta.
  assert (Ha : acquires env w \/
               exists e, driver_cached w = false /\ setup_raises env = Some e).
  { unfold acquires. destruct (driver_cached w); [auto|].
    destruct (setup_raises env) as [e|]; eauto. }
  destruct Ha as [Ha | (e & Hc & He)];
    [|rewrite (search_multiple_businesses_no_session env keywords shop_names
                 progress_bar w e Hc He); cbn; split; [constructor | lia]].
  rewrite search_multiple_businesses_acquired by exact Ha.
  cbv zeta. cbn [emitted]. rewrite !fractions_app.
  destruct (setup_events_quiet w) as (-> & _ & _). cbn [app].
  destruct (cleanup_events env ChromeSession progress_bar
              (final (for_pairs env ChromeSession progress_bar
                        (Z.of_nat (length keywords)) 0
                        (combine keywords shop_names) [] (acquired w))))
    as (post & -> & _ & _ & Hpost).
  cbn [fractions].
  assert (Hones : (ones (fractions post) <= 1)%nat)
    by (destruct Hpost as [-> | ->]; cbn; lia).
  pose proof (combine_within keywords shop_names) as Hc.
  destruct progress_bar as [bar|].
  - destruct (for_pairs_fractions env ChromeSession (Z.of_nat (length keywords))
                bar (combine keywords shop_names) 0 [] (acquired w))
      as (m & Hm & -> & _); [lia | exact Hc |].
    split.
    + apply pass_fractions_sorted; [lia | lia | exact Hpost].
    + rewrite ones_app, pass_fractions_ones by lia. exact Hones.
  - rewrite for_pairs_silent. cbn [app]. split; [|exact Hones].
    destruct Hpost as [-> | ->]; repeat constructor.
Qed.

(** C8.  With a progress bar, an acquired session and no raising disposal
    or report, the batch completes and the fractions reported are
    [0/total, 1/total, ...], one before each pair is resolved, followed by
    a single closing 1: they never decrease and 1 occurs once, last. *)
Theorem progress_fractions_nondecreasing (env : Env)
    (keywords shop_names : list pystr) (bar : ProgressBar) (w : World) :
  acquires env w -> quit_raises env = None ->
  (forall n, progress_raises env n = None) ->
  let r := search_multiple_businesses env keywords shop_names (Some bar) w in
  let reported := fractions (emitted r) in
  (exists rows, res r = inl rows) /\
  reported = pass_fractions (Z.of_nat (length keywords)) 0
               (length (combine keywords shop_names)) ++ [1%Q] /\
  Sorted Qle reported /\
  ones reported = 1%nat /\
  last reported 0%Q = 1%Q.
Proof.
  intros Hs Hq Hpr. cbv zeta.
  pose proof (combine_within keywords shop_names) as Hc.
  assert (Hrep : fractions
                   (emitted (search_multiple_businesses env keywords
                               shop_names (Some bar) w))
                 = pass_fractions (Z.of_nat (length keywords)) 0
                     (length (combine keywords shop_names)) ++ [1%Q]).
  { rewrite search_multiple_businesses_acquired by exact Hs. cbv zeta.
    cbn [emitted]. rewrite !fractions_app, cleanup_run, Hq, Hpr.
    destruct (setup_events_quiet w) as (-> & _ & _).
    cbn [emitted fractions app].
    destruct (for_pairs_fractions env ChromeSession (Z.of_nat (length keywords))
                bar (combine keywords shop_names) 0 [] (acquired w))
      as (m & _ & -> & Hall); [lia | exact Hc |].
    rewrite (Hall _ (for_pairs_rows env ChromeSession
                       (Z.of_nat (length keywords)) (Some bar)
                       (combine keywords shop_names) Hpr 0 [] (acquired w)
                       ltac:(lia) Hc)).
    reflexivity. }
  split.
  { eexists. apply batch_rows; assumption. }
  rewrite Hrep. repeat split.
  - apply pass_fractions_sorted; [lia | lia | now right].
  - rewrite ones_app, pass_fractions_ones by lia. reflexivity.
  - apply last_last.
Qed.

Lemma progress_fractions_nondecreasing_witness :
  fractions
    (emitted (search_multiple_businesses flaky_env
                [of_string "q"; of_string "r"] [of_string "A"; of_string "D"]
                (Some StProgress) initial_world))
  = [0 # 2; 1 # 2; 1]%Q.
Proof.
  refine (proj1 (proj2 (progress_fractions_nondecreasing flaky_env
                          [of_string "q"; of_string "r"]
                          [of_string "A"; of_string "D"]
                          StProgress initial_world _ _ _)));
    [right; reflexivity | reflexivity | reflexivity].
Defined.

(** C9.  Once the session is acquired, a batch run calls [driver.quit()]
    exactly once, whatever the pages, the progress reports or the disposal
    itself do; the call comes after everything the pair loop did, and only
    the closing progress report can follow it. *)
Theorem session_disposed_exactly_once (env : Env)
    (keywords shop_names : list pystr) (progress_bar : option ProgressBar)
    (w : World) :
  acquires env w ->
  let r := search_multiple_businesses env keywords shop_names progress_bar w in
  count is_quit (emitted r) = 1%nat /\
  exists pre post,
    emitted r = pre ++ EQuit :: post /\
    count is_quit pre = O /\
    forallb is_progress post = true.
Proof.
  intros Hs. cbv zeta.
  rewrite search_multiple_businesses_acquired by exact Hs. cbv zeta.
  cbn [emitted].
  destruct (cleanup_events env ChromeSession progress_bar
              (final (for_pairs env ChromeSession progress_bar
                        (Z.of_nat (length keywords)) 0
                        (combine keywords shop_names) [] (acquired w))))
    as (post & -> & Hpost & _).
  pose proof (for_pairs_no_quit env ChromeSession progress_bar
                (Z.of_nat (length keywords)) (combine keywords shop_names)
                0 [] (acquired w)) as Hloop.
  destruct (setup_events_quiet w) as (_ & Hsetup & _).
  assert (Hpq : count is_quit post = O).
  { clear - Hpost. unfold count. induction post as [|e post IH]; [reflexivity|].
    cbn in Hpost. apply andb_true_iff in Hpost. destruct Hpost as [He Hp].
    destruct e; try discriminate. cbn. auto. }
  split.
  - change (EQuit :: post) with ([EQuit] ++ post).
    rewrite !count_app, Hsetup, Hloop, Hpq. reflexivity.
  - exists (setup_events w
            ++ emitted (for_pairs env ChromeSession progress_bar
                          (Z.of_nat (length keywords)) 0
                          (combine keywords shop_names) [] (acquired w))), post.
    repeat split; [rewrite <- app_assoc; reflexivity | | exact Hpost].
    rewrite count_app, Hsetup, Hloop. reflexivity.
Qed.

(** Every pair fails, the first progress report raises out of the pair
    loop, and the disposal raises too: still one [driver.quit()]. *)
Lemma session_disposed_exactly_once_witness :
  count is_quit
    (emitted (search_multiple_businesses hostile_env
                [of_string "q"; of_string "r"] [of_string "A"; of_string "D"]
                (Some StProgress) initial_world)) = 1%nat.
Proof.
  refine (proj1 (session_disposed_exactly_once hostile_env
                   [of_string "q"; of_string "r"]
                   [of_string "A"; of_string "D"]
                   (Some StProgress) initial_world _)).
  right. reflexivity.
Defined.

(** C10.  The batch takes keywords, names and a progress bar, and nothing
    else: each of its rows holds the rank a resolution with 50 scroll
    attempts finds on the page the pair's navigation lands on, and no pair
    has its page read more than 50 times. *)
Theorem batch_uses_default_budget (env : Env)
    (keywords shop_names : list pystr) (progress_bar : option ProgressBar)
    (w : World) :
  acquires env w -> quit_raises env = None ->
  (forall n, progress_raises env n = None) ->
  let r := search_multiple_businesses env keywords shop_names progress_bar w in
  res r = inl (rows_from env 50 (navs w) (combine keywords shop_names)) /\
  (count is_page_source (emitted r)
   <= 50 * length (combine keywords shop_names))%nat.
Proof.
  intros Hs Hq Hpr. cbv zeta. split.
  - apply batch_rows; assumption.
  - rewrite search_multiple_businesses_acquired by exact Hs. cbv zeta.
    cbn [emitted].
    destruct (cleanup_events env ChromeSession progress_bar
                (final (for_pairs env ChromeSession progress_bar
                          (Z.of_nat (length keywords)) 0
                          (combine keywords shop_names) [] (acquired w))))
      as (post & -> & _ & Hpost & _).
    pose proof (for_pairs_reads env ChromeSession progress_bar
                  (Z.of_nat (length keywords)) (combine keywords shop_names)
                  0 [] (acquired w)) as Hloop.
    change (Z.to_nat default_max_scrolls) with 50%nat in Hloop.
    destruct (setup_events_quiet w) as (_ & _ & Hsetup).
    change (EQuit :: post) with ([EQuit] ++ post).
    rewrite !count_app, Hsetup, Hpost.
    change (count is_page_source [EQuit]) with O. lia.
Qed.

(** The target would be found by a 51st pass; the batch stops after 50. *)
Lemma batch_uses_default_budget_witness :
  rank_on (page_of late_feed) (of_string "B") 51 = 52 /\
  let r := search_multiple_businesses late_env [of_string "q"] [of_string "B"]
             None initial_world in
  res r = inl [mkRow (of_string "q") (of_string "B") RankNotFound false] /\
  (count is_page_source (emitted r) <= 50 * 1)%nat.
Proof.
  split; [vm_compute; reflexivity|].
  apply (batch_uses_default_budget late_env [of_string "q"] [of_string "B"]
           None initial_world); [right; reflexivity | reflexivity | reflexivity].
Defined.

(** * Further properties of the code *)

(** ** Python's [strip] *)

Lemma lstrip_clean (s : pystr) :
  match lstrip s with c :: _ => isspace c = false | [] => True end.
Proof.
  induction s as [|c s IH]; simpl; [exact I|].
  destruct (isspace c) eqn:E; [exact IH | exact E].
Qed.

Lemma lstrip_of_clean (s : pystr) :
  match s with c :: _ => isspace c = false | [] => True end -> lstrip s = s.
Proof. destruct s as [|c s]; simpl; [reflexivity|]. intros ->. reflexivity. Qed.

Lemma lstrip_idem (s : pystr) : lstrip (lstrip s) = lstrip s.
Proof. apply lstrip_of_clean, lstrip_clean. Qed.

Lemma lstrip_suffix (s : pystr) :
  exists pre, s = pre ++ lstrip s /\ forallb isspace pre = true.
Proof.
  induction s as [|c s (pre & IH1 & IH2)]; [exists []; split; reflexivity|].
  simpl. destruct (isspace c) eqn:E.
  - exists (c :: pre). simpl. rewrite E, IH2. split; [f_equal; exact IH1 | reflexivity].
  - exists []. split; reflexivity.
Qed.

Lemma rstrip_idem (s : pystr) : rstrip (rstrip s) = rstrip s.
Proof. unfold rstrip. rewrite rev_involutive, lstrip_idem. reflexivity. Qed.

Lemma rstrip_keeps_clean (s : pystr) :
  match s with c :: _ => isspace c = false | [] => True end ->
  match rstrip s with c :: _ => isspace c = false | [] => True end.
Proof.
  destruct s as [|c s]; [intros _; exact I|]. intros Hc.
  destruct (lstrip_suffix (rev (c :: s))) as (pre & Hpre & Hsp).
  assert (Hs : c :: s = rstrip (c :: s) ++ rev pre).
  { unfold rstrip. rewrite <- rev_app_distr, <- Hpre, rev_involutive.
    reflexivity. }
  destruct (rstrip (c :: s)) as [|c' t] eqn:Er.
  - exfalso. simpl in Hs.
    assert (Hin : In c (rev pre)) by (rewrite <- Hs; now left).
    apply in_rev in Hin.
    rewrite forallb_forall in Hsp. specialize (Hsp c Hin). congruence.
  - simpl in Hs. injection Hs as <- _. exact Hc.
Qed.

(** Stripping twice is stripping once. *)
Lemma strip_idem (s : pystr) : strip (strip s) = strip s.
Proof.
  unfold strip.
  rewrite (lstrip_of_clean (rstrip (lstrip s)))
    by apply rstrip_keeps_clean, lstrip_clean.
  apply rstrip_idem.
Qed.

(** ** What one resolution returns and does *)

Lemma offset_nonneg (p : Page) (s k : nat) : 0 <= offset p s k.
Proof.
  revert s; induction k as [|k IH]; intros s; simpl; [lia|].
  specialize (IH (S s)). unfold snapshot_len.
  destruct (source p s); lia.
Qed.

(** A resolution returns [-1] or a rank of at least 1. *)
Lemma search_single_business_range (env : Env) (driver : WebDriver)
    (keyword shop_name : pystr) (max_scrolls : Z) (w : World) (r : Z) :
  res (search_single_business env driver keyword shop_name max_scrolls w)
  = inl r ->
  r = -1 \/ 1 <= r.
Proof.
  intros Hr. destruct (Z.eq_dec r (-1)) as [|Hne]; [now left | right].
  destruct (search_single_business_sound env driver keyword shop_name
              max_scrolls w r Hr Hne) as (k & es & j & _ & _ & _ & _ & ->).
  pose proof (offset_nonneg (landing env w keyword) 0 k). lia.
Qed.

(** X1.  The rank returned for a target first seen after [k] fruitless
    passes is its 1-based position in that snapshot plus the number of
    entries walked by those [k] passes; for [k = 0] it is the position. *)
Theorem rank_counts_walked_entries (env : Env) (driver : WebDriver)
    (keyword shop_name : pystr) (max_scrolls : Z) (w : World)
    (k : nat) (es : list Tag) (j : nat) :
  loads (landing env w keyword) ->
  Z.of_nat k < max_scrolls ->
  quiet (landing env w keyword) shop_name 0 k ->
  source (landing env w keyword) k = inr es ->
  find_match shop_name es = Some j ->
  res (search_single_business env driver keyword shop_name max_scrolls w) =
  inl (offset (landing env w keyword) 0 k + Z.of_nat j + 1) /\
  (k = O ->
   res (search_single_business env driver keyword shop_name max_scrolls w) =
   inl (Z.of_nat j + 1)).
Proof.
  intros Hl Hk Hq Hs Hm.
  pose proof (search_single_business_found env driver keyword shop_name
                max_scrolls w k es j Hl Hk Hq Hs Hm) as Hr.
  split; [exact Hr|]. intros ->. exact Hr.
Qed.

Lemma rank_counts_walked_entries_witness :
  res (search_single_business growing_env ChromeSession (of_string "q")
         (of_string "B") 50 initial_world) = inl (1 + 1 + 1).
Proof.
  refine (proj1 (rank_counts_walked_entries growing_env ChromeSession
                   (of_string "q") (of_string "B") 50 initial_world
                   1 [organic "A"; organic "B"] 1 _ _ _ _ _)).
  - repeat split.
  - lia.
  - intros i Hi. exists [organic "A"].
    assert (i = O) as -> by lia. repeat split.
  - reflexivity.
  - reflexivity.
Defined.

(** X2.  A target name that [strip] would change (one with white space at
    either end) is never found: the page text is stripped before the
    comparison, the target is not. *)
Theorem padded_target_never_found (env : Env) (driver : WebDriver)
    (keyword shop_name : pystr) (max_scrolls : Z) (w : World) :
  strip shop_name <> shop_name ->
  res (search_single_business env driver keyword shop_name max_scrolls w) =
  inl (-1).
Proof.
  intros Hpad.
  destruct (search_single_business_returns env driver keyword shop_name
              max_scrolls w) as [r Hr].
  rewrite Hr. f_equal.
  destruct (Z.eq_dec r (-1)) as [|Hne]; [assumption | exfalso].
  destruct (search_single_business_sound env driver keyword shop_name
              max_scrolls w r Hr Hne) as (k & es & j & _ & _ & _ & Hm & _).
  destruct (find_match_Some _ _ _ Hm) as (e & _ & He & _).
  apply matches_true in He. destruct He as [_ Hname].
  destruct (shop_name_element e) as [text|]; [|discriminate].
  injection Hname as <-. apply Hpad, strip_idem.
Qed.

Lemma padded_target_never_found_witness :
  res (search_single_business two_entry_env ChromeSession (of_string "q")
         (of_string "A ") 50 initial_world) = inl (-1).
Proof.
  apply padded_target_never_found. vm_compute. discriminate.
Defined.

(** ** Traces *)

Lemma gets_app (a b : list event) : gets (a ++ b) = gets a ++ gets b.
Proof.
  induction a as [|e a IH]; [reflexivity|].
  destruct e; simpl; rewrite ?IH; reflexivity.
Qed.

Lemma paced_app (rested : bool) (a b : list event) :
  paced rested (a ++ b) = paced rested a && paced (rested_after rested a) b.
Proof.
  revert rested; induction a as [|e a IH]; intros rested; [reflexivity|].
  destruct e; simpl; rewrite ?IH, ?andb_assoc; reflexivity.
Qed.

Lemma rested_after_app (rested : bool) (a b : list event) :
  rested_after rested (a ++ b) = rested_after (rested_after rested a) b.
Proof.
  revert rested; induction a as [|e a IH]; intros rested; [reflexivity|].
  destruct e; simpl; rewrite ?IH; reflexivity.
Qed.

(** Events without a navigation keep the pace and do not undo a pause. *)
Lemma no_gets_paced (evs : list event) :
  gets evs = [] ->
  (forall rested, paced rested evs = true) /\ rested_after true evs = true /\
  count is_get evs = O.
Proof.
  induction evs as [|e evs IH]; [intros _; repeat split|].
  destruct e; simpl; try discriminate; intros H;
    destruct (IH H) as (IH1 & IH2 & IH3); repeat split; auto.
Qed.

Lemma while_loop_trace (fuel : nat) (driver : WebDriver) (shop_name : pystr)
    (max_scrolls : Z) :
  forall (scroll_count rank : Z) (w : World),
  let evs := emitted (while_loop fuel driver shop_name max_scrolls
                        scroll_count rank w) in
  gets evs = [] /\
  (count is_execute_script evs <= count is_page_source evs)%nat /\
  (count is_sleep evs <= count is_execute_script evs)%nat.
Proof.
  induction fuel as [|fuel IH]; intros c rank w; [cbn; repeat split; lia|].
  cbv zeta.
  destruct (Z_lt_le_dec c max_scrolls) as [Hc|Hc];
    [|rewrite while_loop_done by lia; cbn; repeat split; lia].
  destruct (source (page w) (scrolls w)) as [e|es] eqn:Hs.
  { rewrite (while_loop_parse_raises _ _ _ _ _ _ _ e) by assumption.
    cbn; repeat split; lia. }
  destruct (find_match shop_name es) as [j|] eqn:Hm.
  { rewrite (while_loop_match _ _ _ _ _ _ _ es j) by assumption.
    cbn; repeat split; lia. }
  destruct (scroll_raises (page w) (scrolls w)) as [e|] eqn:Hq.
  { rewrite (while_loop_scroll_raises _ _ _ _ _ _ _ es e) by assumption.
    cbn; repeat split; lia. }
  rewrite (while_loop_quiet _ _ _ _ _ _ _ es) by assumption.
  cbv zeta. cbn [emitted].
  destruct (IH (c + 1) (rank + Z.of_nat (length es)) (scrolled w))
    as (H1 & H2 & H3). cbv zeta in H1, H2, H3.
  rewrite gets_app, !count_app, H1. cbn. repeat split; lia.
Qed.

(** A resolution navigates once, first of all, and each scroll follows a
    read of the page, each pause a scroll. *)
Lemma search_single_business_trace (env : Env) (driver : WebDriver)
    (keyword shop_name : pystr) (max_scrolls : Z) (w : World) :
  let evs := emitted (search_single_business env driver keyword shop_name
                        max_scrolls w) in
  exists rest,
    evs = EGet (build_url keyword) :: rest /\ gets rest = [] /\
    (count is_execute_script evs <= count is_page_source evs)%nat /\
    (count is_sleep evs <= count is_execute_script evs)%nat.
Proof.
  cbv zeta. rewrite search_single_business_run. cbv zeta.
  destruct (get_raises (landing env w keyword)) as [e|] eqn:Hg.
  { rewrite (search_body_get_raises env driver keyword shop_name max_scrolls
               w e Hg). cbn. eexists. repeat split; lia. }
  rewrite search_body_loads by exact Hg.
  destruct (frame_wait_raises (landing env w keyword)) as [e|].
  { destruct (is_TimeoutException e); cbn; eexists; repeat split; lia. }
  destruct (container_wait_raises (landing env w keyword)) as [e|].
  { destruct (is_TimeoutException e); cbn; eexists; repeat split; lia. }
  cbv zeta. cbn [res final emitted].
  destruct (while_loop_trace (Z.to_nat max_scrolls) driver shop_name
              max_scrolls 0 0 (landed env w keyword)) as (H1 & H2 & H3).
  cbv zeta in H1, H2, H3.
  set (wl := while_loop (Z.to_nat max_scrolls) driver shop_name
               max_scrolls 0 0 (landed env w keyword)) in *.
  assert (Hshape : forall tail,
            gets tail = [] -> count is_page_source tail = O ->
            count is_execute_script tail = O -> count is_sleep tail = O ->
            exists rest,
              arrival_events keyword ++ emitted wl ++ tail
              = EGet (build_url keyword) :: rest /\ gets rest = [] /\
              (count is_execute_script
                 (arrival_events keyword ++ emitted wl ++ tail)
               <= count is_page_source
                    (arrival_events keyword ++ emitted wl ++ tail))%nat /\
              (count is_sleep (arrival_events keyword ++ emitted wl ++ tail)
               <= count is_execute_script
                    (arrival_events keyword ++ emitted wl ++ tail))%nat).
  { intros tail Ht1 Ht2 Ht3 Ht4.
    exists ([EStText (MsgConnecting (build_url keyword)); EWaitFrame 10;
             EWaitContainer 10] ++ emitted wl ++ tail).
    split; [reflexivity|].
    rewrite !gets_app, H1, Ht1. split; [reflexivity|].
    rewrite !count_app, Ht2, Ht3, Ht4.
    change (count is_execute_script (arrival_events keyword)) with O.
    change (count is_page_source (arrival_events keyword)) with O.
    change (count is_sleep (arrival_events keyword)) with O.
    split; lia. }
  destruct (res wl) as [v|e]; cbn [res final emitted].
  - specialize (Hshape [] eq_refl eq_refl eq_refl eq_refl).
    rewrite app_nil_r in Hshape. exact Hshape.
  - rewrite <- app_assoc.
    exact (Hshape [EStError (MsgException e)] eq_refl eq_refl eq_refl eq_refl).
Qed.

(** X3.  Whatever the page does, a resolution navigates exactly once, as
    its first action and to the base url followed by the raw keyword; it
    reads the page at most [max_scrolls] times, scrolls at most once per
    read and pauses at most once per scroll. *)
Theorem resolution_resource_bounds (env : Env) (driver : WebDriver)
    (keyword shop_name : pystr) (max_scrolls : Z) (w : World) :
  let evs := emitted (search_single_business env driver keyword shop_name
                        max_scrolls w) in
  (exists rest, evs = EGet (BASE_URL ++ keyword) :: rest /\ gets rest = []) /\
  (count is_page_source evs <= Z.to_nat max_scrolls)%nat /\
  (count is_execute_script evs <= count is_page_source evs)%nat /\
  (count is_sleep evs <= count is_execute_script evs)%nat.
Proof.
  cbv zeta.
  destruct (search_single_business_trace env driver keyword shop_name
              max_scrolls w) as (rest & He & Hg & H2 & H3).
  destruct (search_single_business_events env driver keyword shop_name
              max_scrolls w) as (_ & H1 & _).
  cbv zeta in He, H2, H3, H1.
  repeat split; try assumption. exists rest. split; assumption.
Qed.

Lemma resolution_resource_bounds_witness :
  let evs := emitted (search_single_business two_entry_env ChromeSession
                        (of_string "q") (of_string "Z") 5 initial_world) in
  (exists rest,
     evs = EGet (BASE_URL ++ of_string "q") :: rest /\ gets rest = []) /\
  (count is_page_source evs <= Z.to_nat 5)%nat /\
  (count is_execute_script evs <= count is_page_source evs)%nat /\
  (count is_sleep evs <= count is_execute_script evs)%nat.
Proof.
  exact (resolution_resource_bounds two_entry_env ChromeSession
           (of_string "q") (of_string "Z") 5 initial_world).
Defined.

(** ** The batch: rows, navigations, pace *)

Lemma row_of_consistent (keyword shop_name : pystr) (rank : Z) :
  rank = -1 \/ 1 <= rank -> row_consistent (row_of keyword shop_name rank).
Proof.
  intros [-> | H]; unfold row_consistent, row_of; cbn [row_found row_rank].
  - right. split; reflexivity.
  - left. assert (Hp : (0 <? rank) = true) by (apply Z.ltb_lt; lia).
    rewrite Hp. split; [reflexivity|]. exists rank. split; [reflexivity | lia].
Qed.

Lemma report_trace (env : Env) (progress_bar : option ProgressBar)
    (i total : Z) (w : World) :
  let r := report env progress_bar i total w in
  gets (emitted r) = [] /\ count is_setup (emitted r) = O /\
  driver_cached (final r) = driver_cached w.
Proof.
  cbv zeta. rewrite report_run. destruct progress_bar; [|repeat split].
  destruct (total =? 0); [repeat split|].
  destruct (progress_raises env (progress_calls w)); repeat split.
Qed.

Section BatchTraces.

Variable env : Env.
Variable driver : WebDriver.
Variable progress_bar : option ProgressBar.
Variable total : Z.

Lemma for_pairs_consistent (pairs : list (pystr * pystr)) :
  forall (i : Z) (results rows : list Row) (w : World),
  Forall row_consistent results ->
  res (for_pairs env driver progress_bar total i pairs results w) = inl rows ->
  Forall row_consistent rows.
Proof.
  induction pairs as [|[keyword shop_name] rest IH];
    intros i results rows w Hres Hr.
  - cbn in Hr. injection Hr as <-. exact Hres.
  - rewrite for_pairs_cons_run in Hr. cbv zeta in Hr.
    destruct (res (report env progress_bar i total w)); [|discriminate].
    destruct (res (search_single_business env driver keyword shop_name
                     default_max_scrolls
                     (final (report env progress_bar i total w))))
      as [rank|e] eqn:Hs; [|discriminate].
    cbn [res] in Hr. eapply IH; [|exact Hr].
    apply Forall_app. split; [exact Hres|]. constructor; [|constructor].
    apply row_of_consistent.
    exact (search_single_business_range _ _ _ _ _ _ _ Hs).
Qed.

(** The loop navigates to the urls of its pairs, in order. *)
Lemma for_pairs_gets (pairs : list (pystr * pystr)) :
  (forall n, progress_raises env n = None) ->
  forall (i : Z) (results : list Row) (w : World),
  0 <= i -> i + Z.of_nat (length pairs) <= total ->
  gets (emitted (for_pairs env driver progress_bar total i pairs results w)) =
  map (fun p => build_url (fst p)) pairs.
Proof.
  intros Hpr.
  induction pairs as [|[keyword shop_name] rest IH]; intros i results w Hi Hn;
    [reflexivity|].
  cbn [length] in Hn. rewrite for_pairs_cons_run. cbv zeta.
  destruct (report_trace env progress_bar i total w) as (Hg0 & _ & _).
  cbv zeta in Hg0.
  assert (H0 : res (report env progress_bar i total w) = inl tt).
  { rewrite report_run. destruct progress_bar; [|reflexivity].
    assert (Ht : (total =? 0) = false) by (apply Z.eqb_neq; lia).
    rewrite Ht, Hpr. reflexivity. }
  rewrite H0.
  destruct (search_single_business_returns env driver keyword shop_name
              default_max_scrolls (final (report env progress_bar i total w)))
    as [rank Hr].
  destruct (search_single_business_trace env driver keyword shop_name
              default_max_scrolls (final (report env progress_bar i total w)))
    as (rest1 & He & Hg1 & _). cbv zeta in He.
  rewrite Hr. cbn [emitted]. rewrite !gets_app, Hg0, He. cbn [gets app map fst].
  rewrite Hg1. cbn [app gets]. rewrite IH by lia. reflexivity.
Qed.

(** Whatever fails, no navigation of the loop follows another without a
    pause in between. *)
Lemma for_pairs_paced (pairs : list (pystr * pystr)) :
  forall (i : Z) (results : list Row) (w : World),
  paced true
    (emitted (for_pairs env driver progress_bar total i pairs results w))
  = true.
Proof.
  induction pairs as [|[keyword shop_name] rest IH]; intros i results w;
    [reflexivity|].
  rewrite for_pairs_cons_run. cbv zeta.
  destruct (report_trace env progress_bar i total w) as (Hg0 & _ & _).
  cbv zeta in Hg0. destruct (no_gets_paced _ Hg0) as (Hp0 & Hr0 & _).
  destruct (res (report env progress_bar i total w));
    [|cbn [emitted]; apply Hp0].
  destruct (search_single_business_trace env driver keyword shop_name
              default_max_scrolls (final (report env progress_bar i total w)))
    as (rest1 & He & Hg1 & _). cbv zeta in He.
  destruct (no_gets_paced _ Hg1) as (Hp1 & _ & _).
  destruct (res (search_single_business env driver keyword shop_name
                   default_max_scrolls
                   (final (report env progress_bar i total w)))) as [rank|e];
    cbn [emitted]; rewrite !paced_app, Hp0, Hr0, He; cbn [paced andb].
  - rewrite Hp1. cbn [andb]. apply IH.
  - apply Hp1.
Qed.

(** The loop launches no browser and leaves the cache as it is. *)
Lemma for_pairs_cache (pairs : list (pystr * pystr)) :
  forall (i : Z) (results : list Row) (w : World),
  let r := for_pairs env driver progress_bar total i pairs results w in
  count is_setup (emitted r) = O /\
  driver_cached (final r) = driver_cached w.
Proof.
  induction pairs as [|[keyword shop_name] rest IH]; intros i results w;
    [split; reflexivity|].
  cbv zeta. rewrite for_pairs_cons_run. cbv zeta.
  destruct (report_trace env progress_bar i total w) as (_ & Hs0 & Hc0).
  cbv zeta in Hs0, Hc0.
  destruct (res (report env progress_bar i total w));
    [|cbn [emitted final]; split; assumption].
  set (w0 := final (report env progress_bar i total w)) in *.
  destruct (search_single_business_events env driver keyword shop_name
              default_max_scrolls w0) as (Hev & _). cbv zeta in Hev.
  assert (Hs1 : count is_setup
                  (emitted (search_single_business env driver keyword
                              shop_name default_max_scrolls w0)) = O).
  { revert Hev. generalize (emitted (search_single_business env driver keyword
                              shop_name default_max_scrolls w0)).
    intros l. unfold count. induction l as [|e l IHl]; [reflexivity|].
    cbn [forallb]. rewrite andb_true_iff. intros [He Hl].
    destruct e; try discriminate; cbn; auto. }
  assert (Hc1 : driver_cached
                  (final (search_single_business env driver keyword
                            shop_name default_max_scrolls w0))
                = driver_cached w0).
  { rewrite search_single_business_run. cbv zeta.
    destruct (get_raises (landing env w0 keyword)) as [e|] eqn:Hg.
    { rewrite (search_body_get_raises env driver keyword shop_name
                 default_max_scrolls w0 e Hg). reflexivity. }
    rewrite search_body_loads by exact Hg.
    destruct (frame_wait_raises (landing env w0 keyword)) as [e|].
    { destruct (is_TimeoutException e); reflexivity. }
    destruct (container_wait_raises (landing env w0 keyword)) as [e|].
    { destruct (is_TimeoutException e); reflexivity. }
    cbv zeta. cbn [res final emitted].
    assert (Hwl : forall fuel c rank w1,
              driver_cached (final (while_loop fuel driver shop_name
                                      default_max_scrolls c rank w1))
              = driver_cached w1).
    { clear. induction fuel as [|fuel IHf]; intros c rank w1; [reflexivity|].
      destruct (Z_lt_le_dec c default_max_scrolls) as [Hc|Hc];
        [|rewrite while_loop_done by lia; reflexivity].
      destruct (source (page w1) (scrolls w1)) as [e|es] eqn:Hs.
      { rewrite (while_loop_parse_raises _ _ _ _ _ _ _ e) by assumption.
        reflexivity. }
      destruct (find_match shop_name es) as [j|] eqn:Hm.
      { rewrite (while_loop_match _ _ _ _ _ _ _ es j) by assumption.
        reflexivity. }
      destruct (scroll_raises (page w1) (scrolls w1)) as [e|] eqn:Hq.
      { rewrite (while_loop_scroll_raises _ _ _ _ _ _ _ es e) by assumption.
        reflexivity. }
      rewrite (while_loop_quiet _ _ _ _ _ _ _ es) by assumption.
      cbv zeta. cbn [final]. rewrite IHf. reflexivity. }
    destruct (res (while_loop (Z.to_nat default_max_scrolls) driver shop_name
                     default_max_scrolls 0 0 (landed env w0 keyword)));
      cbn [final]; rewrite Hwl; reflexivity. }
  destruct (res (search_single_business env driver keyword shop_name
                   default_max_scrolls w0)) as [rank|e];
    cbn [emitted final].
  - destruct (IH (i + 1) (results ++ [row_of keyword shop_name rank])
                (final (search_single_business env driver keyword shop_name
                          default_max_scrolls w0))) as [Hs2 Hc2].
    cbv zeta in Hs2, Hc2.
    change (ESleep 1 :: ?l) with ([ESleep 1] ++ l).
    rewrite !count_app, Hs0, Hs1, Hs2, Hc2, Hc1. split; [reflexivity | exact Hc0].
  - rewrite !count_app, Hs0, Hs1, Hc1. split; [reflexivity | exact Hc0].
Qed.

End BatchTraces.

Lemma cleanup_trace (env : Env) (driver : WebDriver)
    (progress_bar : option ProgressBar) (w : World) :
  let c := cleanup env driver progress_bar w in
  gets (emitted c) = [] /\ count is_setup (emitted c) = O /\
  count is_quit (emitted c) = 1%nat /\
  driver_cached (final c) = driver_cached w.
Proof.
  cbv zeta. rewrite cleanup_run.
  destruct (quit_raises env); [repeat split|].
  destruct progress_bar; [|repeat split].
  destruct (progress_raises env (progress_calls w)); repeat split.
Qed.

Lemma setup_events_trace (w : World) :
  gets (setup_events w) = [] /\
  count is_setup (setup_events w) = (if driver_cached w then O else 1%nat).
Proof. unfold setup_events. destruct (driver_cached w); split; reflexivity. Qed.

Lemma acquired_cached (w : World) : driver_cached (acquired w) = true.
Proof. unfold acquired. destruct (driver_cached w) eqn:E; [exact E | reflexivity]. Qed.

(** A batch either gets a session or stops at the failed launch. *)
Lemma acquires_or_not (env : Env) (w : World) :
  acquires env w \/
  exists e, driver_cached w = false /\ setup_raises env = Some e.
Proof.
  unfold acquires. destruct (driver_cached w); [auto|].
  destruct (setup_raises env) as [e|]; eauto.
Qed.

(** X4.  In every table a batch returns the two rank columns agree: a row
    is marked found exactly when its rank cell holds an integer, and that
    integer is at least 1; otherwise the cell holds the not-found text. *)
Theorem batch_rows_consistent (env : Env) (keywords shop_names : list pystr)
    (progress_bar : option ProgressBar) (w : World) (rows : list Row) :
  res (search_multiple_businesses env keywords shop_names progress_bar w)
  = inl rows ->
  Forall row_consistent rows.
Proof.
  intros Hr.
  destruct (acquires_or_not env w) as [Ha | (e & Hc & He)].
  - rewrite search_multiple_businesses_acquired in Hr by exact Ha.
    cbv zeta in Hr. cbn [res] in Hr.
    destruct (res (cleanup env ChromeSession progress_bar _)); [|discriminate].
    eapply for_pairs_consistent; [|exact Hr]. constructor.
  - rewrite (search_multiple_businesses_no_session env keywords shop_names
               progress_bar w e Hc He) in Hr. discriminate.
Qed.

Lemma batch_rows_consistent_witness :
  Forall row_consistent
    [mkRow (of_string "q") (of_string "A") RankNotFound false;
     mkRow (of_string "r") (of_string "D") (RankInt 4) true].
Proof.
  apply (batch_rows_consistent flaky_env [of_string "q"; of_string "r"]
           [of_string "A"; of_string "D"] None initial_world).
  vm_compute. reflexivity.
Defined.

(** X5.  When a session is there and no progress report raises, the batch
    navigates exactly once per pair of [zip(keywords, shop_names)], in input
    order, each time to the base url followed by the keyword as typed. *)
Theorem batch_navigates_in_input_order (env : Env)
    (keywords shop_names : list pystr) (progress_bar : option ProgressBar)
    (w : World) :
  acquires env w ->
  (forall n, progress_raises env n = None) ->
  gets (emitted (search_multiple_businesses env keywords shop_names
                   progress_bar w))
  = map (fun p => BASE_URL ++ fst p) (combine keywords shop_names).
Proof.
  intros Ha Hpr.
  rewrite search_multiple_businesses_acquired by exact Ha. cbv zeta.
  cbn [emitted]. rewrite !gets_app.
  destruct (setup_events_trace w) as [-> _].
  destruct (cleanup_trace env ChromeSession progress_bar
              (final (for_pairs env ChromeSession progress_bar
                        (Z.of_nat (length keywords)) 0
                        (combine keywords shop_names) [] (acquired w))))
    as (Hc & _). cbv zeta in Hc. rewrite Hc, app_nil_r. cbn [app].
  apply for_pairs_gets; [exact Hpr | lia | apply combine_within].
Qed.

Lemma batch_navigates_in_input_order_witness :
  gets (emitted (search_multiple_businesses flaky_env
                   [of_string "q"; of_string "r"]
                   [of_string "A"; of_string "D"]
                   (Some StProgress) initial_world))
  = [BASE_URL ++ of_string "q"; BASE_URL ++ of_string "r"].
Proof.
  apply (batch_navigates_in_input_order flaky_env
           [of_string "q"; of_string "r"] [of_string "A"; of_string "D"]
           (Some StProgress) initial_world);
    [right; reflexivity | reflexivity].
Defined.

(** X6.  Whatever the pages, the progress bar or the session do, a batch
    never navigates twice without a call of [time.sleep] in between. *)
Theorem batch_navigations_are_paced (env : Env)
    (keywords shop_names : list pystr) (progress_bar : option ProgressBar)
    (w : World) :
  paced true
    (emitted (search_multiple_businesses env keywords shop_names
                progress_bar w)) = true.
Proof.
  destruct (acquires_or_not env w) as [Ha | (e & Hc & He)].
  - rewrite search_multiple_businesses_acquired by exact Ha. cbv zeta.
    cbn [emitted].
    destruct (setup_events_trace w) as [Hs _].
    destruct (no_gets_paced _ Hs) as (Hp0 & Hr0 & _).
    destruct (cleanup_trace env ChromeSession progress_bar
                (final (for_pairs env ChromeSession progress_bar
                          (Z.of_nat (length keywords)) 0
                          (combine keywords shop_names) [] (acquired w))))
      as (Hc & _). cbv zeta in Hc.
    destruct (no_gets_paced _ Hc) as (Hp2 & _ & _).
    rewrite !paced_app, Hp0, Hr0, for_pairs_paced, Hp2. reflexivity.
  - rewrite (search_multiple_businesses_no_session env keywords shop_names
               progress_bar w e Hc He). reflexivity.
Qed.

(** X7.  When [driver.quit()] raises, the batch raises that exception in
    place of its table, whatever the pairs resolved to, and the closing
    report of 1 is never made. *)
Theorem failed_disposal_discards_rows (env : Env)
    (keywords shop_names : list pystr) (progress_bar : option ProgressBar)
    (w : World) (e : exn) :
  acquires env w -> quit_raises env = Some e ->
  let r := search_multiple_businesses env keywords shop_names progress_bar w in
  res r = inr e /\ ones (fractions (emitted r)) = O.
Proof.
  intros Ha Hq. cbv zeta.
  rewrite search_multiple_businesses_acquired by exact Ha. cbv zeta.
  rewrite cleanup_run, Hq. cbn [res emitted]. split; [reflexivity|].
  rewrite !fractions_app.
  destruct (setup_events_quiet w) as (-> & _ & _). cbn [app fractions].
  rewrite app_nil_r.
  pose proof (combine_within keywords shop_names) as Hc.
  destruct progress_bar as [bar|]; [|rewrite for_pairs_silent; reflexivity].
  destruct (for_pairs_fractions env ChromeSession (Z.of_nat (length keywords))
              bar (combine keywords shop_names) 0 [] (acquired w))
    as (m & Hm & -> & _); [lia | exact Hc |].
  apply pass_fractions_ones; lia.
Qed.

Lemma failed_disposal_discards_rows_witness :
  res (search_multiple_businesses
         (mkEnv (fun _ _ => page_of (static_feed two_entries)) None
                (Some boom) (fun _ => None))
         [of_string "q"] [of_string "B"] (Some StProgress) initial_world)
  = inr boom.
Proof.
  refine (proj1 (failed_disposal_discards_rows
                   (mkEnv (fun _ _ => page_of (static_feed two_entries)) None
                          (Some boom) (fun _ => None))
                   [of_string "q"] [of_string "B"] (Some StProgress)
                   initial_world boom _ _));
    [right; reflexivity | reflexivity].
Defined.

(** X8.  When no session is cached and launching one raises, the batch
    raises that exception having done nothing else: no navigation, no
    [driver.quit()], no progress report. *)
Theorem failed_setup_does_nothing (env : Env)
    (keywords shop_names : list pystr) (progress_bar : option ProgressBar)
    (w : World) (e : exn) :
  driver_cached w = false -> setup_raises env = Some e ->
  let r := search_multiple_businesses env keywords shop_names progress_bar w in
  res r = inr e /\ emitted r = [ESetupDriver] /\ final r = w.
Proof.
  intros Hc He. cbv zeta.
  rewrite (search_multiple_businesses_no_session env keywords shop_names
             progress_bar w e Hc He). repeat split.
Qed.

Lemma failed_setup_does_nothing_witness :
  let r := search_multiple_businesses
             (mkEnv (fun _ _ => blank_page) (Some boom) None (fun _ => None))
             [of_string "q"] [of_string "B"] (Some StProgress) initial_world in
  res r = inr boom /\ emitted r = [ESetupDriver] /\ final r = initial_world.
Proof.
  apply failed_setup_does_nothing; reflexivity.
Defined.

(** X9.  A batch that got a session leaves it cached even though it has
    called [driver.quit()] on it: any later batch launches no browser,
    succeeds in [setup_driver] even where a launch would now raise, and
    calls [driver.quit()] on the same session once more. *)
Theorem quit_session_stays_cached (env env' : Env)
    (keywords shop_names keywords' shop_names' : list pystr)
    (progress_bar progress_bar' : option ProgressBar) (w : World) :
  acquires env w ->
  let r1 := search_multiple_businesses env keywords shop_names
              progress_bar w in
  let r2 := search_multiple_businesses env' keywords' shop_names'
              progress_bar' (final r1) in
  count is_quit (emitted r1) = 1%nat /\
  driver_cached (final r1) = true /\
  count is_setup (emitted r2) = O /\
  count is_quit (emitted r2) = 1%nat.
Proof.
  intros Ha. cbv zeta.
  assert (Hrun : forall en ks ss pb w0, acquires en w0 ->
            let r := search_multiple_businesses en ks ss pb w0 in
            count is_quit (emitted r) = 1%nat /\
            count is_setup (emitted r)
            = (if driver_cached w0 then O else 1%nat) /\
            driver_cached (final r) = true).
  { intros en ks ss pb w0 H0. cbv zeta.
    rewrite search_multiple_businesses_acquired by exact H0. cbv zeta.
    cbn [emitted final].
    destruct (cleanup_trace en ChromeSession pb
                (final (for_pairs en ChromeSession pb (Z.of_nat (length ks)) 0
                          (combine ks ss) [] (acquired w0))))
      as (_ & Hs2 & Hq2 & Hc2). cbv zeta in Hs2, Hq2, Hc2.
    destruct (for_pairs_cache en ChromeSession pb (Z.of_nat (length ks))
                (combine ks ss) 0 [] (acquired w0)) as (Hs1 & Hc1).
    cbv zeta in Hs1, Hc1.
    pose proof (for_pairs_no_quit en ChromeSession pb (Z.of_nat (length ks))
                  (combine ks ss) 0 [] (acquired w0)) as Hq1.
    destruct (setup_events_trace w0) as [_ Hs0].
    destruct (setup_events_quiet w0) as (_ & Hq0 & _).
    rewrite !count_app, Hq0, Hq1, Hq2, Hs0, Hs1, Hs2, Hc2, Hc1.
    repeat split; [destruct (driver_cached w0); reflexivity|].
    apply acquired_cached. }
  destruct (Hrun env keywords shop_names progress_bar w Ha) as (Hq1 & _ & Hc1).
  cbv zeta in Hq1, Hc1.
  destruct (Hrun env' keywords' shop_names' progress_bar'
              (final (search_multiple_businesses env keywords shop_names
                        progress_bar w)))
    as (Hq2 & Hs2 & _); [left; exact Hc1|].
  cbv zeta in Hq2, Hs2. rewrite Hc1 in Hs2. repeat split; assumption.
Qed.

Lemma quit_session_stays_cached_witness :
  let r1 := search_multiple_businesses two_entry_env [of_string "q"]
              [of_string "B"] None initial_world in
  let r2 := search_multiple_businesses
              (mkEnv (fun _ _ => blank_page) (Some boom) None (fun _ => None))
              [of_string "r"] [of_string "A"] None (final r1) in
  count is_quit (emitted r1) = 1%nat /\
  driver_cached (final r1) = true /\
  count is_setup (emitted r2) = O /\
  count is_quit (emitted r2) = 1%nat.
Proof.
  apply quit_session_stays_cached. right. reflexivity.
Defined.

(** ** The input form *)

(** X10.  Whatever buttons are clicked, in whatever order, the number of
    input rows never drops below 1. *)
Theorem input_count_never_below_one (clicks : list click) :
  1 <= after_clicks clicks initial_input_count.
Proof.
  assert (H : forall n, 1 <= n -> 1 <= after_clicks clicks n).
  { induction clicks as [|c clicks IH]; intros n Hn; [exact Hn|].
    destruct c; cbn [after_clicks]; apply IH.
    - unfold add_input. lia.
    - unfold remove_input. destruct (1 <? n) eqn:E; [|exact Hn].
      apply Z.ltb_lt in E. lia. }
  apply H. unfold initial_input_count. lia.
Qed.

Lemma truthy_nonempty (s : pystr) : truthy s = true <-> s <> [].
Proof. destruct s; simpl; split; congruence. Qed.

Lemma combine_unzip {A B} (l : list (A * B)) :
  combine (map fst l) (map snd l) = l.
Proof.
  induction l as [|[a b] l IH]; [reflexivity|]. simpl. rewrite IH. reflexivity.
Qed.

(** X11.  A click on the search button with no row filled in on both sides
    shows the error and starts nothing; otherwise, when the session and the
    progress bar do not fail, the table has one row for each input row with
    both fields filled in, in order, so it has at least one row and no
    row with an empty keyword or name. *)
Theorem direct_search_skips_incomplete_rows (env : Env)
    (keywords shop_names : list pystr) (w : World) :
  acquires env w -> quit_raises env = None ->
  (forall n, progress_raises env n = None) ->
  match direct_search env keywords shop_names w with
  | NoValidInput =>
      forall k s, In (k, s) (combine keywords shop_names) -> k = [] \/ s = []
  | DirectSearched r =>
      exists rows,
        res r = inl rows /\
        map row_pair rows = valid_inputs keywords shop_names /\
        rows <> [] /\
        forall row, In row rows ->
          row_keyword row <> [] /\ row_shop_name row <> [] /\
          In (row_keyword row, row_shop_name row)
             (combine keywords shop_names)
  end.
Proof.
  intros Ha Hq Hpr. unfold direct_search. cbv zeta.
  destruct (valid_inputs keywords shop_names) as [|v vs] eqn:Hv.
  - intros k s Hin. unfold valid_inputs in Hv.
    assert (Hf : ~ In (k, s) (filter (fun p => truthy (fst p) && truthy (snd p))
                                (combine keywords shop_names)))
      by (rewrite Hv; intros []).
    rewrite filter_In in Hf. cbn [fst snd] in Hf.
    destruct k; [now left|]. destruct s; [now right|].
    exfalso. apply Hf. split; [exact Hin | reflexivity].
  - rewrite <- Hv.
    exists (rows_from env default_max_scrolls (navs w)
              (valid_inputs keywords shop_names)).
    rewrite batch_rows by assumption. rewrite combine_unzip.
    pose proof (rows_from_pairs env default_max_scrolls
                  (valid_inputs keywords shop_names) (navs w)) as Hp.
    repeat split.
    + exact Hp.
    + intros Hnil. rewrite Hnil in Hp. cbn in Hp. congruence.
    + assert (Hin : In (row_pair row) (valid_inputs keywords shop_names)).
      { rewrite <- Hp. now apply in_map. }
      unfold valid_inputs in Hin. apply filter_In in Hin.
      destruct Hin as [_ Ht]. apply andb_true_iff in Ht.
      apply truthy_nonempty, Ht.
    + assert (Hin : In (row_pair row) (valid_inputs keywords shop_names)).
      { rewrite <- Hp. now apply in_map. }
      unfold valid_inputs in Hin. apply filter_In in Hin.
      destruct Hin as [_ Ht]. apply andb_true_iff in Ht.
      apply truthy_nonempty, Ht.
    + assert (Hin : In (row_pair row) (valid_inputs keywords shop_names)).
      { rewrite <- Hp. now apply in_map. }
      unfold valid_inputs in Hin. apply filter_In in Hin. apply Hin.
Qed.

Lemma direct_search_skips_incomplete_rows_witness :
  match direct_search flaky_env
          [of_string "q"; []; of_string "r"]
          [of_string "A"; of_string "B"; of_string "D"] initial_world with
  | NoValidInput => False
  | DirectSearched r =>
      exists rows,
        res r = inl rows /\
        map row_pair rows =
          [(of_string "q", of_string "A"); (of_string "r", of_string "D")]
  end.
Proof.
  pose proof (direct_search_skips_incomplete_rows flaky_env
                [of_string "q"; []; of_string "r"]
                [of_string "A"; of_string "B"; of_string "D"] initial_world
                (or_intror eq_refl) eq_refl (fun _ => eq_refl)) as H.
  destruct (direct_search flaky_env [of_string "q"; []; of_string "r"]
              [of_string "A"; of_string "B"; of_string "D"] initial_world)
    as [|r] eqn:E.
  - discriminate E.
  - destruct H as (rows & Hr & Hp & _). exists rows. split; [exact Hr|].
    exact Hp.
Defined.

(** ** The CSV page *)

Lemma pair_eqb_eq (a b : pystr * pystr) : pair_eqb a b = true <-> a = b.
Proof.
  destruct a as [a1 a2], b as [b1 b2]. unfold pair_eqb. cbn [fst snd].
  rewrite andb_true_iff, !pystr_eqb_eq.
  split; [intros [-> ->]; reflexivity | intros [= -> ->]; auto].
Qed.

Lemma existsb_pair_eqb (row : pystr * pystr) (seen : list (pystr * pystr)) :
  existsb (pair_eqb row) seen = true <-> In row seen.
Proof.
  rewrite existsb_exists. split.
  - intros (x & Hin & He). apply pair_eqb_eq in He. now subst.
  - intros Hin. exists row. split; [exact Hin | now apply pair_eqb_eq].
Qed.

Lemma drop_duplicates_from_In (rows : list (pystr * pystr)) :
  forall seen x,
  In x (drop_duplicates_from seen rows) <-> In x rows /\ ~ In x seen.
Proof.
  induction rows as [|row rest IH]; intros seen x; cbn [drop_duplicates_from].
  - simpl. tauto.
  - destruct (existsb (pair_eqb row) seen) eqn:E.
    + apply existsb_pair_eqb in E. rewrite IH. simpl.
      split; [tauto|]. intros [[<- | H] Hn]; [contradiction | tauto].
    + assert (Hn : ~ In row seen).
      { intros H. apply existsb_pair_eqb in H. congruence. }
      simpl. rewrite IH. simpl. split.
      * intros [<- | [H1 H2]]; [tauto|]. split; [tauto|]. tauto.
      * intros [[<- | H] Hx]; [tauto|].
        destruct (list_eq_dec N.eq_dec (fst row) (fst x)) as [E1|E1];
          destruct (list_eq_dec N.eq_dec (snd row) (snd x)) as [E2|E2];
          try (right; split; [exact H|]; intros [<- | Hs];
               [congruence | contradiction]).
        left. destruct row, x; cbn in *; congruence.
Qed.

Lemma drop_duplicates_from_NoDup (rows : list (pystr * pystr)) :
  forall seen, NoDup (drop_duplicates_from seen rows).
Proof.
  induction rows as [|row rest IH]; intros seen; cbn [drop_duplicates_from];
    [constructor|].
  destruct (existsb (pair_eqb row) seen); [apply IH|].
  constructor; [|apply IH].
  rewrite drop_duplicates_from_In. simpl. tauto.
Qed.

Lemma drop_duplicates_from_fixed (rows : list (pystr * pystr)) :
  forall seen, NoDup rows -> (forall x, In x rows -> ~ In x seen) ->
  drop_duplicates_from seen rows = rows.
Proof.
  induction rows as [|row rest IH]; intros seen Hnd Hs; [reflexivity|].
  cbn [drop_duplicates_from]. inversion Hnd as [|? ? Hnin Hnd']; subst.
  destruct (existsb (pair_eqb row) seen) eqn:E.
  - apply existsb_pair_eqb in E. exfalso. apply (Hs row); [now left | exact E].
  - f_equal. apply IH; [exact Hnd'|].
    intros x Hx [<- | Hin]; [contradiction|].
    apply (Hs x); [now right | exact Hin].
Qed.

(** A row added at the end of a table is kept when it is new to it. *)
Lemma drop_duplicates_from_snoc (rows : list (pystr * pystr)) :
  forall seen x,
  drop_duplicates_from seen (rows ++ [x]) =
  if existsb (pair_eqb x) (seen ++ rows)
  then drop_duplicates_from seen rows
  else drop_duplicates_from seen rows ++ [x].
Proof.
  induction rows as [|row rest IH]; intros seen x.
  - cbn [app drop_duplicates_from]. rewrite app_nil_r.
    destruct (existsb (pair_eqb x) seen); reflexivity.
  - cbn [app drop_duplicates_from].
    assert (Hsame : existsb (pair_eqb x) (seen ++ row :: rest)
                    = existsb (pair_eqb x) ((row :: seen) ++ rest)).
    { cbn [app existsb]. rewrite !existsb_app. cbn [existsb].
      destruct (pair_eqb x row), (existsb (pair_eqb x) seen); reflexivity. }
    destruct (existsb (pair_eqb row) seen) eqn:E.
    + rewrite IH.
      assert (Hs : existsb (pair_eqb x) (seen ++ row :: rest)
                   = existsb (pair_eqb x) (seen ++ rest)).
      { rewrite !existsb_app. cbn [existsb].
        destruct (pair_eqb x row) eqn:Ex; [|reflexivity].
        apply pair_eqb_eq in Ex. subst. rewrite E. reflexivity. }
      rewrite Hs. reflexivity.
    + rewrite IH, Hsame.
      destruct (existsb (pair_eqb x) ((row :: seen) ++ rest)); reflexivity.
Qed.

(** X12.  The search started from the CSV page resolves each distinct
    (keyword, name) row of the table once, in the order of first
    appearance: when the session and the progress bar do not fail its
    result has one row per distinct input row, no two for the same pair,
    a table without repeated rows is searched as it is, and a row added at
    the end of the table adds a search exactly when it is new. *)
Theorem csv_search_one_row_per_distinct_pair (env : Env)
    (input_df : list (pystr * pystr)) (w : World) :
  acquires env w -> quit_raises env = None ->
  (forall n, progress_raises env n = None) ->
  exists rows,
    res (csv_search env input_df w) = inl rows /\
    map row_pair rows = drop_duplicates input_df /\
    NoDup (map row_pair rows) /\
    (forall p, In p (map row_pair rows) <-> In p input_df) /\
    (NoDup input_df -> map row_pair rows = input_df) /\
    (forall p,
       drop_duplicates (input_df ++ [p]) =
       if existsb (pair_eqb p) input_df then map row_pair rows
       else map row_pair rows ++ [p]).
Proof.
  intros Ha Hq Hpr. unfold csv_search. cbv zeta.
  exists (rows_from env default_max_scrolls (navs w) (drop_duplicates input_df)).
  rewrite batch_rows by assumption. rewrite combine_unzip.
  rewrite rows_from_pairs. unfold drop_duplicates.
  repeat split.
  - apply drop_duplicates_from_NoDup.
  - intros H. apply drop_duplicates_from_In in H. tauto.
  - intros H. apply drop_duplicates_from_In. simpl. tauto.
  - intros Hnd. apply drop_duplicates_from_fixed; [exact Hnd|].
    intros x _ [].
  - intros p0. apply (drop_duplicates_from_snoc input_df [] p0).
Qed.

Lemma csv_search_one_row_per_distinct_pair_witness :
  exists rows,
    res (csv_search flaky_env
           [(of_string "q", of_string "A"); (of_string "r", of_string "D");
            (of_string "q", of_string "A")] initial_world) = inl rows /\
    map row_pair rows =
      [(of_string "q", of_string "A"); (of_string "r", of_string "D")].
Proof.
  destruct (csv_search_one_row_per_distinct_pair flaky_env
              [(of_string "q", of_string "A"); (of_string "r", of_string "D");
               (of_string "q", of_string "A")] initial_world
              (or_intror eq_refl) eq_refl (fun _ => eq_refl))
    as (rows & Hr & Hp & _).
  exists rows. split; [exact Hr | exact Hp].
Defined.

(** *** Order of keywords *)

Lemma pystr_eqb_refl (a : pystr) : pystr_eqb a a = true.
Proof. now apply pystr_eqb_eq. Qed.

Lemma pystr_eqb_sym (a b : pystr) : pystr_eqb a b = pystr_eqb b a.
Proof.
  destruct (pystr_eqb a b) eqn:E1, (pystr_eqb b a) eqn:E2; try reflexivity.
  - apply pystr_eqb_eq in E1. subst. rewrite pystr_eqb_refl in E2. discriminate.
  - apply pystr_eqb_eq in E2. subst. rewrite pystr_eqb_refl in E1. discriminate.
Qed.

Lemma pystr_ltb_irrefl (a : pystr) : pystr_ltb a a = false.
Proof.
  induction a as [|x a IH]; [reflexivity|]. simpl.
  rewrite N.ltb_irrefl, N.eqb_refl. exact IH.
Qed.

Lemma pystr_ltb_trans (a : pystr) :
  forall b c, pystr_ltb a b = true -> pystr_ltb b c = true ->
              pystr_ltb a c = true.
Proof.
  induction a as [|x a IH]; intros [|y b] [|z c]; simpl; try discriminate;
    try reflexivity.
  destruct (x <? y)%N eqn:Exy, (y <? z)%N eqn:Eyz;
    rewrite ?N.ltb_lt, ?N.ltb_ge in *.
  - intros _ _. assert (H : (x <? z)%N = true) by (apply N.ltb_lt; lia).
    rewrite H. reflexivity.
  - destruct (y =? z)%N eqn:E; [|discriminate]. apply N.eqb_eq in E. subst.
    intros _ _. assert (H : (x <? z)%N = true) by (apply N.ltb_lt; lia).
    rewrite H. reflexivity.
  - destruct (x =? y)%N eqn:E; [|discriminate]. apply N.eqb_eq in E. subst.
    intros _ _. assert (H : (y <? z)%N = true) by (apply N.ltb_lt; lia).
    rewrite H. reflexivity.
  - destruct (x =? y)%N eqn:E1; [|discriminate].
    destruct (y =? z)%N eqn:E2; [|discriminate].
    apply N.eqb_eq in E1, E2. subst.
    rewrite N.ltb_irrefl, N.eqb_refl. apply IH.
Qed.

Lemma pystr_ltb_total (a : pystr) :
  forall b, pystr_eqb a b = false -> pystr_ltb a b = false ->
            pystr_ltb b a = true.
Proof.
  induction a as [|x a IH]; intros [|y b]; simpl; try discriminate;
    try reflexivity.
  destruct (x <? y)%N eqn:Exy; [discriminate|].
  destruct (x =? y)%N eqn:E.
  - apply N.eqb_eq in E. subst. rewrite N.ltb_irrefl, N.eqb_refl.
    cbn [andb]. apply IH.
  - intros _ _. apply N.ltb_ge in Exy. apply N.eqb_neq in E.
    assert (H : (y <? x)%N = true) by (apply N.ltb_lt; lia).
    rewrite H. reflexivity.
Qed.

Lemma pystr_ltb_neq (a b : pystr) :
  pystr_ltb a b = true -> pystr_eqb a b = false.
Proof.
  intros H. destruct (pystr_eqb a b) eqn:E; [|reflexivity].
  apply pystr_eqb_eq in E. subst. rewrite pystr_ltb_irrefl in H. discriminate.
Qed.

(** *** Group sizes *)

Lemma bump_keys (keyword : pystr) (sizes : list (pystr * nat)) :
  forall x, In x (bump keyword sizes) ->
            fst x = keyword \/ exists y, In y sizes /\ fst y = fst x.
Proof.
  induction sizes as [|[k n] rest IH]; intros x; cbn [bump].
  - intros [<- | []]. now left.
  - destruct (pystr_eqb keyword k) eqn:E.
    + intros [<- | H]; right; [exists (k, n) | exists x]; simpl; auto.
    + destruct (pystr_ltb keyword k).
      * intros [<- | H]; [now left | right; exists x; auto].
      * intros [<- | H]; [right; exists (k, n); simpl; auto|].
        destruct (IH x H) as [Hk | (y & Hy & Hf)]; [now left|].
        right. exists y. simpl. auto.
Qed.

Lemma bump_ascending (keyword : pystr) (sizes : list (pystr * nat)) :
  ascending sizes -> ascending (bump keyword sizes).
Proof.
  unfold ascending. induction sizes as [|[k n] rest IH]; intros Hs; cbn [bump].
  - repeat constructor.
  - inversion Hs as [|? ? Hrest Hall]; subst.
    destruct (pystr_eqb keyword k) eqn:E.
    + constructor; [exact Hrest | exact Hall].
    + destruct (pystr_ltb keyword k) eqn:L.
      * constructor; [exact Hs|]. constructor; [exact L|].
        rewrite Forall_forall in *. intros y Hy. cbn [fst].
        eapply pystr_ltb_trans; [exact L | exact (Hall y Hy)].
      * constructor; [apply IH; exact Hrest|].
        rewrite Forall_forall in *. intros x Hx. cbn [fst].
        destruct (bump_keys _ _ _ Hx) as [-> | (y & Hy & <-)].
        -- apply pystr_ltb_total; [exact E | exact L].
        -- exact (Hall y Hy).
Qed.

Lemma size_of_above (keyword : pystr) (sizes : list (pystr * nat)) :
  Forall (fun y => pystr_ltb keyword (fst y) = true) sizes ->
  size_of keyword sizes = None.
Proof.
  induction sizes as [|[k n] rest IH]; intros H; [reflexivity|].
  inversion H as [|? ? Hk Hrest]; subst. cbn [size_of]. cbn [fst] in Hk.
  rewrite (pystr_ltb_neq _ _ Hk). apply IH, Hrest.
Qed.

Lemma size_of_bump (keyword k' : pystr) (sizes : list (pystr * nat)) :
  ascending sizes ->
  size_of k' (bump keyword sizes) =
  if pystr_eqb k' keyword then
    Some (S (match size_of keyword sizes with Some n => n | None => O end))
  else size_of k' sizes.
Proof.
  unfold ascending. induction sizes as [|[k n] rest IH]; intros Hs.
  - cbn. destruct (pystr_eqb k' keyword); reflexivity.
  - inversion Hs as [|? ? Hrest Hall]; subst.
    cbn [bump].
    destruct (pystr_eqb keyword k) eqn:E.
    + apply pystr_eqb_eq in E. subst. cbn [size_of].
      rewrite pystr_eqb_refl.
      destruct (pystr_eqb k' k); reflexivity.
    + destruct (pystr_ltb keyword k) eqn:L.
      * cbn [size_of]. rewrite E.
        rewrite (size_of_above keyword rest); [reflexivity|].
        rewrite Forall_forall in *. intros y Hy.
        eapply pystr_ltb_trans; [exact L | exact (Hall y Hy)].
      * cbn [size_of]. rewrite (IH Hrest), E.
        destruct (pystr_eqb k' k) eqn:E1; [|reflexivity].
        apply pystr_eqb_eq in E1. subst.
        rewrite pystr_eqb_sym, E. reflexivity.
Qed.

Lemma groupby_size_ascending (keys : list pystr) :
  ascending (groupby_size keys).
Proof.
  induction keys as [|k keys IH]; [constructor|].
  cbn [groupby_size]. apply bump_ascending, IH.
Qed.

(** A keyword is listed with the number of its rows, and not listed when
    it has none. *)
Lemma groupby_size_spec (keys : list pystr) (keyword : pystr) :
  size_of keyword (groupby_size keys) =
  match occurrences keyword keys with
  | O => None
  | S n => Some (S n)
  end.
Proof.
  unfold occurrences. induction keys as [|k keys IH]; [reflexivity|].
  cbn [groupby_size filter].
  rewrite size_of_bump by apply groupby_size_ascending.
  destruct (pystr_eqb keyword k) eqn:E.
  - apply pystr_eqb_eq in E. subst k. rewrite IH. cbn [length].
    destruct (length (filter (pystr_eqb keyword) keys)); reflexivity.
  - exact IH.
Qed.

Lemma found_ranks_consistent (results_df : list Row) :
  Forall row_consistent results_df ->
  exists l, found_ranks results_df = inl l /\
    forall keyword,
      occurrences keyword (map fst (filter (fun r => snd r <=? 20) l)) =
      top20_rows results_df keyword.
Proof.
  unfold top20_rows, occurrences.
  induction results_df as [|row rest IH]; intros Hc.
  - exists []. split; reflexivity.
  - inversion Hc as [|? ? Hrow Hrest]; subst.
    destruct (IH Hrest) as (l & Hl & Hk). cbn [found_ranks filter].
    destruct Hrow as [(Hf & k & Hr & Hk1) | (Hf & Hr)]; rewrite Hf, ?Hr.
    + cbn [astype_int]. rewrite Hl. eexists. split; [reflexivity|].
      intros keyword. cbn [filter snd andb].
      destruct (k <=? 20); cbn [map fst filter];
        rewrite (pystr_eqb_sym (row_keyword row) keyword);
        destruct (pystr_eqb keyword (row_keyword row)); cbn [andb length];
        rewrite Hk; reflexivity.
    + exists l. split; [exact Hl|]. intros keyword. cbn [andb]. apply Hk.
Qed.

(** X13.  On a table whose rank columns agree, as every batch result does,
    the top-20 table lists in ascending order exactly the keywords that
    have a found row of rank at most 20, each with the number of such
    rows; a keyword with none is left out rather than listed with 0.  On a
    result without rows the lookup of the found column raises [KeyError]. *)
Theorem top20_count_lists_keywords_with_hits (results_df : list Row) :
  Forall row_consistent results_df ->
  match results_df with
  | [] => exists e, top20_count results_df = inr e
  | _ :: _ =>
      exists sizes,
        top20_count results_df = inl sizes /\
        ascending sizes /\
        forall keyword,
          size_of keyword sizes =
          match top20_rows results_df keyword with
          | O => None
          | S n => Some (S n)
          end
  end.
Proof.
  intros Hc. destruct results_df as [|row rest]; [eexists; reflexivity|].
  destruct (found_ranks_consistent _ Hc) as (l & Hl & Hk).
  unfold top20_count. rewrite Hl. cbv zeta. eexists. split; [reflexivity|].
  split; [apply groupby_size_ascending|].
  intros keyword. rewrite groupby_size_spec, Hk. reflexivity.
Qed.

Lemma top20_count_lists_keywords_with_hits_witness :
  exists sizes,
    top20_count [mkRow (of_string "q") (of_string "A") RankNotFound false;
                 mkRow (of_string "r") (of_string "D") (RankInt 4) true;
                 mkRow (of_string "b") (of_string "E") (RankInt 21) true;
                 mkRow (of_string "a") (of_string "F") (RankInt 20) true;
                 mkRow (of_string "r") (of_string "G") (RankInt 1) true]
    = inl sizes /\ ascending sizes /\
    size_of (of_string "r") sizes = Some 2%nat /\
    size_of (of_string "b") sizes = None.
Proof.
  assert (Hc : Forall row_consistent
                 [mkRow (of_string "q") (of_string "A") RankNotFound false;
                  mkRow (of_string "r") (of_string "D") (RankInt 4) true;
                  mkRow (of_string "b") (of_string "E") (RankInt 21) true;
                  mkRow (of_string "a") (of_string "F") (RankInt 20) true;
                  mkRow (of_string "r") (of_string "G") (RankInt 1) true]).
  { repeat (apply Forall_cons;
              [unfold row_consistent; cbn;
               first [ right; split; reflexivity
                     | left; split; [reflexivity|]; eexists;
                       split; [reflexivity | lia] ] |]).
    apply Forall_nil. }
  destruct (top20_count_lists_keywords_with_hits _ Hc)
    as (sizes & Hs & Ha & Hk).
  exists sizes. split; [exact Hs|]. split; [exact Ha|].
  split; rewrite Hk; reflexivity.
Defined.

(** ** The download link *)

(** Lists can be taken apart three items at a time. *)
Lemma list_ind3 {A} (P : list A -> Prop) :
  P [] -> (forall a, P [a]) -> (forall a b, P [a; b]) ->
  (forall a b c l, P l -> P (a :: b :: c :: l)) ->
  forall l, P l.
Proof.
  intros H0 H1 H2 H3 l.
  assert (H : P l /\ (forall a, P (a :: l)) /\ (forall a b, P (a :: b :: l))).
  { induction l as [|x l (IH0 & IH1 & IH2)]; [auto|].
    split; [apply IH1|]. split; [intros a; apply IH2|].
    intros a b. apply H3, IH0. }
  apply H.
Qed.

Lemma b64_char_is_b64 (i : N) : is_b64 (b64_char i) = true.
Proof.
  unfold b64_char, is_b64.
  destruct (i <? 26)%N eqn:E1; [apply N.ltb_lt in E1|apply N.ltb_ge in E1].
  { assert (H1 : (65 <=? 65 + i)%N = true) by (apply N.leb_le; lia).
    assert (H2 : (65 + i <=? 90)%N = true) by (apply N.leb_le; lia).
    rewrite H1, H2. reflexivity. }
  destruct (i <? 52)%N eqn:E2; [apply N.ltb_lt in E2|apply N.ltb_ge in E2].
  { assert (H1 : (97 <=? 97 + (i - 26))%N = true) by (apply N.leb_le; lia).
    assert (H2 : (97 + (i - 26) <=? 122)%N = true) by (apply N.leb_le; lia).
    rewrite H1, H2. cbn. rewrite orb_true_r. reflexivity. }
  destruct (i <? 62)%N eqn:E3; [apply N.ltb_lt in E3|apply N.ltb_ge in E3].
  { assert (H1 : (48 <=? 48 + (i - 52))%N = true) by (apply N.leb_le; lia).
    assert (H2 : (48 + (i - 52) <=? 57)%N = true) by (apply N.leb_le; lia).
    rewrite H1, H2. cbn. rewrite !orb_true_r. reflexivity. }
  destruct (i =? 62)%N; reflexivity.
Qed.

Lemma b64encode_well_formed (bytes : list N) :
  forallb is_b64 (b64encode bytes) = true /\
  (length (b64encode bytes) = 4 * ((length bytes + 2) / 3))%nat.
Proof.
  induction bytes as [| a | a b | a b c l [IH1 IH2]] using list_ind3.
  - split; reflexivity.
  - cbn [b64encode forallb]. rewrite !b64_char_is_b64. split; reflexivity.
  - cbn [b64encode forallb]. rewrite !b64_char_is_b64. split; reflexivity.
  - cbn [b64encode]. rewrite forallb_app, length_app, IH1, IH2.
    cbn [forallb]. rewrite !b64_char_is_b64. split; [reflexivity|].
    cbn [length].
    replace (S (S (S (length l))) + 2)%nat with ((length l + 2) + 1 * 3)%nat
      by lia.
    rewrite Nat.div_add by lia. lia.
Qed.

Lemma utf8_raises_on_surrogates (s : pystr) :
  match utf8 s with
  | inl _ => existsb is_surrogate s = false
  | inr _ => existsb is_surrogate s = true
  end.
Proof.
  induction s as [|c s IH]; [reflexivity|]. cbn [utf8 existsb].
  unfold utf8_char, is_surrogate at 1 3.
  destruct (c <? 128)%N eqn:E1.
  { apply N.ltb_lt in E1.
    assert (H : (55296 <=? c)%N = false) by (apply N.leb_gt; lia).
    rewrite H. cbn [andb orb]. destruct (utf8 s); exact IH. }
  destruct (c <? 2048)%N eqn:E2.
  { apply N.ltb_lt in E2.
    assert (H : (55296 <=? c)%N = false) by (apply N.leb_gt; lia).
    rewrite H. cbn [andb orb]. destruct (utf8 s); exact IH. }
  destruct ((55296 <=? c)%N && (c <=? 57343)%N); [reflexivity|].
  cbn [orb]. destruct (c <? 65536)%N; destruct (utf8 s); exact IH.
Qed.

(** X14.  The link is produced exactly when the CSV text holds no
    surrogate code point (otherwise the encoding raises).  Its payload
    sits between the fixed head and the tail that carries the file name,
    always starts with [77u/] (the byte order mark), consists of base64
    characters only, so of no quote, and has a length that is a multiple
    of 4. *)
Theorem download_link_is_well_formed (DataFrame : Type)
    (to_csv : DataFrame -> pystr) (df : DataFrame) (filename : pystr) :
  match get_csv_download_link DataFrame to_csv df filename with
  | inr _ => existsb is_surrogate (to_csv df) = true
  | inl href =>
      existsb is_surrogate (to_csv df) = false /\
      exists payload,
        href = link_head ++ payload ++ link_tail filename /\
        firstn 4 payload = of_string "77u/" /\
        forallb is_b64 payload = true /\
        ~ In 34%N payload /\
        (length payload mod 4 = 0)%nat
  end.
Proof.
  unfold get_csv_download_link, encode_utf_8_sig.
  pose proof (utf8_raises_on_surrogates (to_csv df)) as Hs.
  destruct (utf8 (to_csv df)) as [bytes|e]; [|exact Hs].
  cbv zeta. split; [exact Hs|].
  exists (b64encode (BOM ++ bytes)). split; [reflexivity|].
  destruct (b64encode_well_formed (BOM ++ bytes)) as [Hb Hl].
  repeat split.
  - exact Hb.
  - intros Hin. rewrite forallb_forall in Hb. specialize (Hb _ Hin).
    discriminate Hb.
  - rewrite Hl. rewrite Nat.mul_comm. apply Nat.Div0.mod_mul.
Qed.

Lemma b64_index_char (i : N) :
  (i < 64)%N ->
  b64_index (b64_char i) = i /\ (b64_char i =? 61)%N = false.
Proof.
  intros Hi.
  assert (Hall : forallb (fun i => (b64_index (b64_char i) =? i)%N
                                   && negb (b64_char i =? 61)%N)
                         (map N.of_nat (seq 0 64)) = true)
    by (vm_compute; reflexivity).
  rewrite forallb_forall in Hall.
  assert (Hin : In i (map N.of_nat (seq 0 64))).
  { rewrite <- (N2Nat.id i). apply in_map, in_seq. lia. }
  specialize (Hall i Hin). apply andb_true_iff in Hall.
  destruct Hall as [H1 H2]. apply N.eqb_eq in H1.
  apply negb_true_iff in H2. split; assumption.
Qed.

(** Decoding the base64 text of a sequence of bytes gives the bytes back. *)
Lemma b64decode_b64encode (bytes : list N) :
  Forall (fun b => (b < 256)%N) bytes ->
  b64decode (b64encode bytes) = bytes.
Proof.
  induction bytes as [| a | a b | a b c l IH] using list_ind3; intros Hb.
  - reflexivity.
  - inversion Hb as [|? ? Ha _]; subst.
    cbn [b64encode b64decode]. cbn [N.eqb Pos.eqb app].
    destruct (b64_index_char (a / 4)) as [-> _]; [divmod|].
    destruct (b64_index_char ((a mod 4) * 16)) as [-> _]; [divmod|].
    f_equal. divmod.
  - inversion Hb as [|? ? Ha Hb']; subst.
    inversion Hb' as [|? ? Hb0 _]; subst.
    cbn [b64encode b64decode].
    destruct (b64_index_char (a / 4)) as [-> _]; [divmod|].
    destruct (b64_index_char ((a mod 4) * 16 + b / 16)) as [-> _]; [divmod|].
    destruct (b64_index_char ((b mod 16) * 4)) as [-> ->]; [divmod|].
    cbn [N.eqb Pos.eqb app]. f_equal; [divmod|]. f_equal. divmod.
  - inversion Hb as [|? ? Ha Hb1]; subst.
    inversion Hb1 as [|? ? Hb0 Hb2]; subst.
    inversion Hb2 as [|? ? Hc Hl]; subst.
    cbn [b64encode app b64decode].
    destruct (b64_index_char (a / 4)) as [-> _]; [divmod|].
    destruct (b64_index_char ((a mod 4) * 16 + b / 16)) as [-> _]; [divmod|].
    destruct (b64_index_char ((b mod 16) * 4 + c / 64)) as [-> ->]; [divmod|].
    destruct (b64_index_char (c mod 64)) as [-> ->]; [divmod|].
    cbn [app]. rewrite (IH Hl).
    f_equal; [divmod|]. f_equal; [divmod|]. f_equal. divmod.
Qed.

Lemma utf8_char_bytes (c : N) (bc : list N) :
  (c <= 1114111)%N -> utf8_char c = inl bc ->
  Forall (fun b => (b < 256)%N) bc.
Proof.
  intros Hc. unfold utf8_char.
  destruct (c <? 128)%N eqn:E1.
  { apply N.ltb_lt in E1. intros E. assert (bc = [c]) by congruence. subst.
    repeat (apply Forall_cons; [divmod|]). apply Forall_nil. }
  destruct (c <? 2048)%N eqn:E2.
  { apply N.ltb_lt in E2. intros E.
    assert (bc = [192 + c / 64; 128 + c mod 64]%N) by congruence. subst.
    repeat (apply Forall_cons; [divmod|]). apply Forall_nil. }
  destruct ((55296 <=? c)%N && (c <=? 57343)%N); [discriminate|].
  destruct (c <? 65536)%N eqn:E3.
  { apply N.ltb_lt in E3. intros E.
    assert (bc = [224 + c / 4096; 128 + (c / 64) mod 64; 128 + c mod 64]%N)
      by congruence. subst.
    repeat (apply Forall_cons; [divmod|]). apply Forall_nil. }
  intros E.
  assert (bc = [240 + c / 262144; 128 + (c / 4096) mod 64;
                128 + (c / 64) mod 64; 128 + c mod 64]%N) by congruence.
  subst. repeat (apply Forall_cons; [divmod|]). apply Forall_nil.
Qed.

Lemma utf8_bytes (s : pystr) (bytes : list N) :
  Forall (fun c => (c <= 1114111)%N) s ->
  utf8 s = inl bytes ->
  Forall (fun b => (b < 256)%N) bytes.
Proof.
  revert bytes; induction s as [|c s IH]; intros bytes Hs Hu.
  - assert (bytes = []) by (cbn in Hu; congruence). subst. constructor.
  - inversion Hs as [|? ? Hc Hs']; subst. cbn [utf8] in Hu.
    destruct (utf8_char c) as [bc|e] eqn:Ec; [|discriminate].
    destruct (utf8 s) as [rest|e]; [|discriminate].
    assert (bytes = bc ++ rest) by congruence. subst.
    apply Forall_app. split; [|apply IH; auto].
    exact (utf8_char_bytes c bc Hc Ec).
Qed.

(** X15.  The payload of a link loses nothing: decoded as base64 it is
    the byte order mark followed by the UTF-8 bytes of the CSV text. *)
Theorem download_link_payload_decodes (DataFrame : Type)
    (to_csv : DataFrame -> pystr) (df : DataFrame) (filename href : pystr) :
  Forall (fun c => (c <= 1114111)%N) (to_csv df) ->
  get_csv_download_link DataFrame to_csv df filename = inl href ->
  exists payload bytes,
    href = link_head ++ payload ++ link_tail filename /\
    utf8 (to_csv df) = inl bytes /\
    b64decode payload = BOM ++ bytes.
Proof.
  intros Hs. unfold get_csv_download_link, encode_utf_8_sig.
  destruct (utf8 (to_csv df)) as [bytes|e] eqn:Hu; [|discriminate].
  cbv zeta. intros [= <-].
  exists (b64encode (BOM ++ bytes)), bytes. repeat split.
  apply b64decode_b64encode. apply Forall_app. split.
  - repeat (apply Forall_cons; [reflexivity|]). apply Forall_nil.
  - exact (utf8_bytes _ _ Hs Hu).
Qed.

Lemma download_link_payload_decodes_witness :
  exists payload bytes,
    link_head ++ of_string "77u/QSzqsIA=" ++ link_tail (of_string "f.csv")
    = link_head ++ payload ++ link_tail (of_string "f.csv") /\
    utf8 [65; 44; 44032]%N = inl bytes /\
    b64decode payload = BOM ++ bytes.
Proof.
  apply (download_link_payload_decodes unit (fun _ => [65; 44; 44032]%N)
           tt (of_string "f.csv")).
  - repeat (apply Forall_cons; [lia|]). apply Forall_nil.
  - vm_compute. reflexivity.
Defined.
